(** * Meeting-notes summarizer: entity store and request handlers

    A shallow embedding of the in-memory store (class [MemStorage], the
    module the handlers import as [./storage]; its text is the second part
    of [src/schema.ts]), of the request schemas ([generateSummarySchema],
    [sendEmailSchema], first part of [src/schema.ts]) and of the request
    handlers of [src/routes.ts].

    - JavaScript strings are sequences of UTF-16 code units ([jsstring]).
    - A JavaScript [Map] is an insertion-ordered association list ([JsMap]).
    - The handlers run in a state-and-exception monad over a [World] that
      holds the store, the log of the calls made to the two external
      services and the number of calls made to the two nondeterministic
      primitives ([randomUUID] and [new Date]).
    - The external services, the environment variables and the pieces of
      third-party libraries whose definition is not in the code base are
      the fields of the class [Collaborators].
    - A handler run is atomic: the interleaving of concurrent requests at
      the [await] points is not modelled.  [console.error] is left out, and
      so is what [multer] does before the upload handler runs. *)

From Stdlib Require Import Ascii String QArith DecimalNat.
From stdpp Require Import base decidable option list numbers strings.

#[local] Set Warnings "-register-all".
Local Open Scope N_scope.

(** ** JavaScript strings *)

Definition code_unit := N.
Definition jsstring := list code_unit.

(** String literals of the source, one code unit per character. *)
Fixpoint lit (s : string) : jsstring :=
  match s with
  | EmptyString => []
  | String a s' => N_of_ascii a :: lit s'
  end.

Arguments lit : simpl never.

Definition LF : code_unit := 0x0A.

(** The characters matched by the regular expression class [\s] and removed
    by [String.prototype.trim]: ECMAScript's WhiteSpace and LineTerminator
    productions. *)
Definition isWhiteSpace (c : code_unit) : bool :=
  (* WhiteSpace: TAB, VT, FF, ZWNBSP and the space separators (Zs) *)
  (c =? 0x09) || (c =? 0x0B) || (c =? 0x0C) || (c =? 0xFEFF) ||
  (c =? 0x20) || (c =? 0xA0) || (c =? 0x1680) ||
  ((0x2000 <=? c) && (c <=? 0x200A)) ||
  (c =? 0x202F) || (c =? 0x205F) || (c =? 0x3000) ||
  (* LineTerminator: LF, CR, LS, PS *)
  (c =? 0x0A) || (c =? 0x0D) || (c =? 0x2028) || (c =? 0x2029).

Fixpoint trimStart (s : jsstring) : jsstring :=
  match s with
  | [] => []
  | c :: s' => if isWhiteSpace c then trimStart s' else s
  end.

Fixpoint trimEnd (s : jsstring) : jsstring :=
  match s with
  | [] => []
  | c :: s' =>
      match trimEnd s' with
      | [] => if isWhiteSpace c then [] else [c]
      | t => c :: t
      end
  end.

(** [s.trim()] *)
Definition trim (s : jsstring) : jsstring := trimEnd (trimStart s).

(** [s.split(/\s+/)].  The scan keeps the piece being read ([cur], reversed)
    and whether the previous code unit belonged to a separator ([in_sep]):
    a maximal run of white space closes the current piece once, and the
    piece open at the end of the string is always pushed, so the empty
    string gives one empty piece. *)
Fixpoint split_scan (in_sep : bool) (cur : jsstring) (s : jsstring)
  : list jsstring :=
  match s with
  | [] => [rev cur]
  | c :: s' =>
      if isWhiteSpace c then
        if in_sep then split_scan true [] s'
        else rev cur :: split_scan true [] s'
      else split_scan false (c :: cur) s'
  end.

Definition split_ws (s : jsstring) : list jsstring := split_scan false [] s.

(** [n.toString()] for an array length: the decimal digits. *)
Fixpoint digits (u : Decimal.uint) : jsstring :=
  match u with
  | Decimal.Nil => []
  | Decimal.D0 u => 0x30 :: digits u
  | Decimal.D1 u => 0x31 :: digits u
  | Decimal.D2 u => 0x32 :: digits u
  | Decimal.D3 u => 0x33 :: digits u
  | Decimal.D4 u => 0x34 :: digits u
  | Decimal.D5 u => 0x35 :: digits u
  | Decimal.D6 u => 0x36 :: digits u
  | Decimal.D7 u => 0x37 :: digits u
  | Decimal.D8 u => 0x38 :: digits u
  | Decimal.D9 u => 0x39 :: digits u
  end.

Definition toString (n : nat) : jsstring := digits (Nat.to_uint n).

(** [content.trim().split(/\s+/).length], the expression both
    [MemStorage.updateSummary] and the generate handler evaluate. *)
Definition wordCountOf (content : jsstring) : nat :=
  length (split_ws (trim content)).

(** What the specification calls the number of words: the number of maximal
    runs of code units that are not white space.  [prev_sep] tells whether
    the previous code unit was white space (or the string starts here). *)
Fixpoint count_runs (prev_sep : bool) (s : jsstring) : nat :=
  match s with
  | [] => 0
  | c :: s' =>
      if isWhiteSpace c then count_runs true s'
      else ((if prev_sep then 1 else 0) + count_runs false s')%nat
  end.

Definition words (s : jsstring) : nat := count_runs true s.

(** ** Values of request bodies

    [req.body] is what the JSON body parser produced.  The payload of a
    number never matters below beyond being zero or not. *)

Inductive JsValue : Type :=
| JUndefined
| JNull
| JBool (b : bool)
| JNumber (q : Q)
| JString (s : jsstring)
| JArray (xs : list JsValue)
| JObject (fields : list (jsstring * JsValue)).

(** Own property of a parsed object; [undefined] when the key is missing. *)
Fixpoint own_property (fields : list (jsstring * JsValue)) (k : jsstring)
  : JsValue :=
  match fields with
  | [] => JUndefined
  | (k', v) :: fields' =>
      if decide (k' = k) then v else own_property fields' k
  end.

(** [const { k } = v]: a [TypeError] ([None]) on [undefined] and [null];
    for the keys read by the handlers ([content]) every other value that is
    not an object with that own property gives [undefined]. *)
Definition destructure (v : JsValue) (k : jsstring) : option JsValue :=
  match v with
  | JUndefined | JNull => None
  | JObject fields => Some (own_property fields k)
  | _ => Some JUndefined
  end.

(** JavaScript truthiness, as used by [!x], [x || y] and [x ? y : z]. *)
Definition truthy (v : JsValue) : bool :=
  match v with
  | JUndefined | JNull => false
  | JBool b => b
  | JNumber q => negb (Qnum q =? 0)%Z
  | JString s => negb (bool_decide (s = []))
  | JArray _ | JObject _ => true
  end.

Definition typeof_string (v : JsValue) : bool :=
  match v with JString _ => true | _ => false end.

(** [x || y] on an optional string: [undefined], [null] and the empty string
    are falsy. *)
Definition or_else (x : option jsstring) (y : jsstring) : jsstring :=
  match x with
  | Some s => if bool_decide (s = []) then y else s
  | None => y
  end.

(** [x || null] *)
Definition or_null (x : option jsstring) : option jsstring :=
  match x with
  | Some s => if bool_decide (s = []) then None else Some s
  | None => None
  end.

(** ** Entities (the tables of [src/schema.ts]) *)

Module Transcript.
Record t := mk {
  id : jsstring;
  content : jsstring;
  fileName : option jsstring;
  createdAt : Z }.
End Transcript.

Module Summary.
Record t := mk {
  id : jsstring;
  transcriptId : jsstring;
  content : jsstring;
  customInstructions : option jsstring;
  wordCount : option jsstring;
  createdAt : Z }.
End Summary.

Module EmailShare.
Record t := mk {
  id : jsstring;
  summaryId : jsstring;
  recipients : jsstring;
  subject : jsstring;
  message : option jsstring;
  sentAt : Z }.
End EmailShare.

Module InsertTranscript.
Record t := mk {
  content : jsstring;
  fileName : option jsstring }.
End InsertTranscript.

Module InsertSummary.
Record t := mk {
  transcriptId : jsstring;
  content : jsstring;
  customInstructions : option jsstring;
  wordCount : option jsstring }.
End InsertSummary.

Module InsertEmailShare.
Record t := mk {
  summaryId : jsstring;
  recipients : jsstring;
  subject : jsstring;
  message : option jsstring }.
End InsertEmailShare.

(** ** JavaScript [Map]: keyed, iterated in insertion order *)

Definition JsMap (V : Type) : Type := list (jsstring * V).

Fixpoint Map_get {V} (k : jsstring) (m : JsMap V) : option V :=
  match m with
  | [] => None
  | (k', v) :: m' => if decide (k' = k) then Some v else Map_get k m'
  end.

(** [m.set(k, v)]: an existing key keeps its place, a new key goes last. *)
Fixpoint Map_set {V} (k : jsstring) (v : V) (m : JsMap V) : JsMap V :=
  match m with
  | [] => [(k, v)]
  | (k', v') :: m' =>
      if decide (k' = k) then (k, v) :: m' else (k', v') :: Map_set k v m'
  end.

(** [Array.from(m.values())] *)
Definition Map_values {V} (m : JsMap V) : list V := snd <$> m.

Definition Map_keys {V} (m : JsMap V) : list jsstring := fst <$> m.

(** ** The store and the world around it *)

Record MemStorage := mkStorage {
  transcripts : JsMap Transcript.t;
  summaries : JsMap Summary.t;
  emailShares : JsMap EmailShare.t }.

(** [new MemStorage()] *)
Definition MemStorage_new : MemStorage := mkStorage [] [] [].

(** The request sent to the completion service and what comes back. *)
Record ChatMessage := mkChatMessage { role : jsstring; chat_content : jsstring }.

Record ChatRequest := mkChatRequest {
  messages : list ChatMessage;
  model : jsstring;
  temperature : Q;
  max_tokens : N }.

Record ChoiceMessage := mkChoiceMessage { choice_content : option jsstring }.
Record Choice := mkChoice { choice_message : option ChoiceMessage }.
Record ChatCompletion := mkChatCompletion { choices : list Choice }.

(** The argument of [transporter.sendMail]. *)
Record MailOptions := mkMail {
  mail_from : jsstring;
  mail_to : jsstring;
  mail_subject : jsstring;
  mail_text : jsstring;
  mail_html : jsstring }.

Record World := mkWorld {
  storage : MemStorage;
  uuid_draws : nat;                (* calls made to randomUUID() *)
  date_reads : nat;                (* evaluations of new Date() *)
  groq_calls : list ChatRequest;   (* requests sent to the completion service *)
  mail_calls : list MailOptions }. (* messages handed to the mail service *)

(** Everything the code takes from outside the repository: the outcome of
    each call to the two services and to the two nondeterministic
    primitives (the [n]-th call, counted from 0), the environment
    variables, and the library functions whose definition is not part of
    the code base. *)
Class Collaborators := {
  randomUUID_nth : nat → jsstring;
  Date_nth : nat → Z;
  (** [None]: the promise is rejected *)
  groq_create : nat → ChatRequest → option ChatCompletion;
  (** [false]: the promise is rejected *)
  sendMail : nat → MailOptions → bool;
  env_SMTP_USER : option jsstring;
  env_EMAIL_USER : option jsstring;
  JSON_stringify : list jsstring → jsstring;
  (** the pattern behind zod's [.email()] *)
  zod_isEmail : jsstring → bool }.

(** ** Validation ([zod]) *)

Inductive ZodIssueCode := invalid_type | too_small | invalid_string.

Inductive PathSegment := Key (k : jsstring) | Index (i : nat).

(** [issue_message] is the message the schema gives, [None] for the
    library's default wording. *)
Record ZodIssue := mkIssue {
  issue_code : ZodIssueCode;
  issue_path : list PathSegment;
  issue_message : option jsstring }.

(** ** Exceptions and the handler monad *)

Inductive Exn :=
| ZodError (errors : list ZodIssue)
| TypeError
| ServiceError.

Inductive Outcome (A : Type) : Type :=
| Returned (a : A)
| Thrown (e : Exn).
Arguments Returned {A} a.
Arguments Thrown {A} e.

Definition M (A : Type) : Type := World → Outcome A * World.

Definition ret {A} (a : A) : M A := λ w, (Returned a, w).

Definition throw {A} (e : Exn) : M A := λ w, (Thrown e, w).

Definition bind {A B} (m : M A) (k : A → M B) : M B :=
  λ w, match m w with
       | (Returned a, w') => k a w'
       | (Thrown e, w') => (Thrown e, w')
       end.

(** [try { body } catch (error) { handler }] *)
Definition try_catch {A} (body : M A) (handler : Exn → M A) : M A :=
  λ w, match body w with
       | (Returned a, w') => (Returned a, w')
       | (Thrown e, w') => handler e w'
       end.

Declare Scope js_scope.
Delimit Scope js_scope with js.
Notation "'let*' x := m 'in' k" := (bind m (λ x, k))
  (at level 10, x name, m at level 100, k at level 200) : js_scope.
Notation "m ;;; k" := (bind m (λ _, k))
  (at level 100, k at level 200, right associativity) : js_scope.
Local Open Scope js_scope.

Definition get_storage : M MemStorage := λ w, (Returned (storage w), w).

Definition put_storage (st : MemStorage) : M unit :=
  λ w, (Returned tt,
        mkWorld st (uuid_draws w) (date_reads w) (groq_calls w) (mail_calls w)).

Section Model.
Context `{Collaborators}.

(** [randomUUID()] *)
Definition randomUUID : M jsstring :=
  λ w, (Returned (randomUUID_nth (uuid_draws w)),
        mkWorld (storage w) (S (uuid_draws w)) (date_reads w)
                (groq_calls w) (mail_calls w)).

(** [new Date()] *)
Definition Date_new : M Z :=
  λ w, (Returned (Date_nth (date_reads w)),
        mkWorld (storage w) (uuid_draws w) (S (date_reads w))
                (groq_calls w) (mail_calls w)).

(** [await groq.chat.completions.create(request)] *)
Definition groq_chat_completions_create (request : ChatRequest)
  : M ChatCompletion :=
  λ w, let w' := mkWorld (storage w) (uuid_draws w) (date_reads w)
                         (groq_calls w ++ [request]) (mail_calls w) in
       match groq_create (length (groq_calls w)) request with
       | Some completion => (Returned completion, w')
       | None => (Thrown ServiceError, w')
       end.

(** [transporter.sendMail(options)]: the call is made, and the promise
    it returns is fulfilled ([true]) or rejected ([false]). *)
Definition transporter_sendMail (options : MailOptions) : M bool :=
  λ w, (Returned (sendMail (length (mail_calls w)) options),
        mkWorld (storage w) (uuid_draws w) (date_reads w)
                (groq_calls w) (mail_calls w ++ [options])).

(** [xs.map(f)] for an effectful [f], left to right. *)
Fixpoint Array_map {A B} (f : A → M B) (xs : list A) : M (list B) :=
  match xs with
  | [] => ret []
  | x :: xs' =>
      let* y := f x in
      let* ys := Array_map f xs' in
      ret (y :: ys)
  end.

(** [await Promise.all(promises)]: rejected as soon as one of them is. *)
Definition Promise_all (promises : list bool) : M unit :=
  if forallb (λ fulfilled : bool, fulfilled) promises then ret tt
  else throw ServiceError.

(** *** [class MemStorage] (the storage module, in [src/schema.ts]) *)

Definition createTranscript (insertTranscript : InsertTranscript.t)
  : M Transcript.t :=
  let* id := randomUUID in
  let* now := Date_new in
  let transcript :=
    {| Transcript.content := InsertTranscript.content insertTranscript;
       Transcript.id := id;
       Transcript.fileName :=
         or_null (InsertTranscript.fileName insertTranscript);
       Transcript.createdAt := now |} in
  let* st := get_storage in
  put_storage (mkStorage (Map_set id transcript (transcripts st))
                         (summaries st) (emailShares st)) ;;;
  ret transcript.

Definition getTranscript (id : jsstring) : M (option Transcript.t) :=
  let* st := get_storage in
  ret (Map_get id (transcripts st)).

Definition createSummary (insertSummary : InsertSummary.t)
  : M Summary.t :=
  let* id := randomUUID in
  let* now := Date_new in
  let summary :=
    {| Summary.transcriptId := InsertSummary.transcriptId insertSummary;
       Summary.content := InsertSummary.content insertSummary;
       Summary.id := id;
       Summary.customInstructions :=
         or_null (InsertSummary.customInstructions insertSummary);
       Summary.wordCount := or_null (InsertSummary.wordCount insertSummary);
       Summary.createdAt := now |} in
  let* st := get_storage in
  put_storage (mkStorage (transcripts st)
                         (Map_set id summary (summaries st))
                         (emailShares st)) ;;;
  ret summary.

Definition getSummary (id : jsstring) : M (option Summary.t) :=
  let* st := get_storage in
  ret (Map_get id (summaries st)).

Definition updateSummary (id : jsstring) (content : jsstring)
  : M (option Summary.t) :=
  let* st := get_storage in
  match Map_get id (summaries st) with
  | None => ret None
  | Some summary =>
      let updatedSummary :=
        {| Summary.id := Summary.id summary;
           Summary.transcriptId := Summary.transcriptId summary;
           Summary.customInstructions := Summary.customInstructions summary;
           Summary.createdAt := Summary.createdAt summary;
           Summary.content := content;
           Summary.wordCount :=
             Some (toString (length (split_ws (trim content)))) |} in
      put_storage (mkStorage (transcripts st)
                             (Map_set id updatedSummary (summaries st))
                             (emailShares st)) ;;;
      ret (Some updatedSummary)
  end.

Definition getSummariesByTranscriptId (transcriptId : jsstring)
  : M (list Summary.t) :=
  let* st := get_storage in
  ret (filter (λ summary, Summary.transcriptId summary = transcriptId)
              (Map_values (summaries st))).

Definition createEmailShare (insertEmailShare : InsertEmailShare.t)
  : M EmailShare.t :=
  let* id := randomUUID in
  let* now := Date_new in
  let emailShare :=
    {| EmailShare.summaryId := InsertEmailShare.summaryId insertEmailShare;
       EmailShare.recipients :=
         InsertEmailShare.recipients insertEmailShare;
       EmailShare.subject := InsertEmailShare.subject insertEmailShare;
       EmailShare.id := id;
       EmailShare.message :=
         or_null (InsertEmailShare.message insertEmailShare);
       EmailShare.sentAt := now |} in
  let* st := get_storage in
  put_storage (mkStorage (transcripts st) (summaries st)
                         (Map_set id emailShare (emailShares st))) ;;;
  ret emailShare.

Definition getEmailSharesBySummaryId (summaryId : jsstring)
  : M (list EmailShare.t) :=
  let* st := get_storage in
  ret (filter (λ emailShare, EmailShare.summaryId emailShare = summaryId)
              (Map_values (emailShares st))).

(** *** Request schemas ([src/schema.ts]) *)

Definition ParseResult (A : Type) : Type := list ZodIssue + A.

(** [z.string().min(1, message)] *)
Definition z_string_min1 (message : string) (path : list PathSegment)
    (v : JsValue) : ParseResult jsstring :=
  match v with
  | JString s =>
      if (length s <? 1)%nat
      then inl [mkIssue too_small path (Some (lit message))]
      else inr s
  | _ => inl [mkIssue invalid_type path None]
  end.

(** [z.string().optional()] *)
Definition z_string_optional (path : list PathSegment) (v : JsValue)
  : ParseResult (option jsstring) :=
  match v with
  | JUndefined => inr None
  | JString s => inr (Some s)
  | _ => inl [mkIssue invalid_type path None]
  end.

(** [z.string().email(message)] *)
Definition z_string_email (message : string) (path : list PathSegment)
    (v : JsValue) : ParseResult jsstring :=
  match v with
  | JString s =>
      if zod_isEmail s then inr s
      else inl [mkIssue invalid_string path (Some (lit message))]
  | _ => inl [mkIssue invalid_type path None]
  end.

Definition issues_of {A} (r : ParseResult A) : list ZodIssue :=
  match r with inl issues => issues | inr _ => [] end.

(** The elements of an array, each parsed at its index. *)
Fixpoint z_elements {A} (elem : list PathSegment → JsValue → ParseResult A)
    (path : list PathSegment) (i : nat) (xs : list JsValue)
  : ParseResult (list A) :=
  match xs with
  | [] => inr []
  | x :: xs' =>
      match elem (path ++ [Index i]) x, z_elements elem path (S i) xs' with
      | inr a, inr rest => inr (a :: rest)
      | r, rs => inl (issues_of r ++ issues_of rs)
      end
  end.

(** [z.array(z.string().email(m1)).min(1, m2)] *)
Definition z_array_email_min1 (m1 m2 : string) (path : list PathSegment)
    (v : JsValue) : ParseResult (list jsstring) :=
  match v with
  | JArray xs =>
      let short :=
        if (length xs <? 1)%nat
        then [mkIssue too_small path (Some (lit m2))] else [] in
      match short, z_elements (z_string_email m1) path 0 xs with
      | [], inr recipients => inr recipients
      | _, r => inl (short ++ issues_of r)
      end
  | _ => inl [mkIssue invalid_type path None]
  end.

Record GenerateSummaryRequest := mkGenerate {
  transcriptContent : jsstring;
  gen_customInstructions : option jsstring }.

Record SendEmailRequest := mkSendEmail {
  req_summaryId : jsstring;
  req_recipients : list jsstring;
  req_subject : jsstring;
  req_message : option jsstring }.

(** [generateSummarySchema.parse(body)] *)
Definition generateSummarySchema_parse (body : JsValue)
  : M GenerateSummaryRequest :=
  match body with
  | JObject fields =>
      match z_string_min1 "Transcript content is required"
              [Key (lit "transcriptContent")]
              (own_property fields (lit "transcriptContent")),
            z_string_optional [Key (lit "customInstructions")]
              (own_property fields (lit "customInstructions")) with
      | inr content, inr instructions =>
          ret (mkGenerate content instructions)
      | r1, r2 => throw (ZodError (issues_of r1 ++ issues_of r2))
      end
  | _ => throw (ZodError [mkIssue invalid_type [] None])
  end.

(** [sendEmailSchema.parse(body)] *)
Definition sendEmailSchema_parse (body : JsValue) : M SendEmailRequest :=
  match body with
  | JObject fields =>
      match z_string_min1 "Summary ID is required" [Key (lit "summaryId")]
              (own_property fields (lit "summaryId")),
            z_array_email_min1 "Invalid email address"
              "At least one recipient is required" [Key (lit "recipients")]
              (own_property fields (lit "recipients")),
            z_string_min1 "Subject is required" [Key (lit "subject")]
              (own_property fields (lit "subject")),
            z_string_optional [Key (lit "message")]
              (own_property fields (lit "message")) with
      | inr summaryId, inr recipients, inr subject, inr message =>
          ret (mkSendEmail summaryId recipients subject message)
      | r1, r2, r3, r4 =>
          throw (ZodError (issues_of r1 ++ issues_of r2 ++
                           issues_of r3 ++ issues_of r4))
      end
  | _ => throw (ZodError [mkIssue invalid_type [] None])
  end.

(** *** Request handlers ([src/routes.ts]) *)

Inductive ResponseBody :=
| TranscriptBody (transcript : Transcript.t)
| SummaryBody (summary : Summary.t)
| MessageBody (message : jsstring)
| InvalidBody (message : jsstring) (errors : list ZodIssue)
| EmailSentBody (message : jsstring) (emailShare : EmailShare.t).

Record Response := mkResponse { status : nat; json : ResponseBody }.

(** [res.json(body)] and [res.status(code).json(body)] *)
Definition res_json (body : ResponseBody) : M Response :=
  ret (mkResponse 200 body).
Definition res_status_json (code : nat) (body : ResponseBody) : M Response :=
  ret (mkResponse code body).

(** [POST /api/transcripts] *)
Definition post_transcripts (body : JsValue) : M Response :=
  try_catch
    (let* content :=
       match destructure body (lit "content") with
       | Some v => ret v
       | None => throw TypeError
       end in
     if negb (truthy content) || negb (typeof_string content) then
       res_status_json 400 (MessageBody (lit "Content is required"))
     else
       match content with
       | JString content =>
           let* transcript :=
             createTranscript
               {| InsertTranscript.content := trim content;
                  InsertTranscript.fileName := None |} in
           res_json (TranscriptBody transcript)
       | _ => throw TypeError
       end)
    (λ error,
       res_status_json 500 (MessageBody (lit "Failed to create transcript"))).

Definition defaultInstructions : jsstring :=
  lit "Summarize the following meeting transcript in a clear, organized format with key discussion points and action items.".

(** [completion.choices[0]?.message?.content] *)
Definition first_choice_content (completion : ChatCompletion)
  : option jsstring :=
  match choices completion with
  | [] => None
  | choice :: _ =>
      match choice_message choice with
      | None => None
      | Some message => choice_content message
      end
  end.

(** [POST /api/summaries/generate] *)
Definition post_summaries_generate (body : JsValue) : M Response :=
  try_catch
    (let* validatedData := generateSummarySchema_parse body in
     let transcriptContent := transcriptContent validatedData in
     let customInstructions := gen_customInstructions validatedData in
     let* transcript :=
       createTranscript
         {| InsertTranscript.content := transcriptContent;
            InsertTranscript.fileName := None |} in
     let instructions := or_else customInstructions defaultInstructions in
     let prompt :=
       instructions ++ [LF; LF] ++ lit "Transcript:" ++ [LF] ++
       transcriptContent in
     let* completion :=
       groq_chat_completions_create
         {| messages := [mkChatMessage (lit "user") prompt];
            model := lit "llama-3.3-70b-versatile";
            temperature := 3 # 10;
            max_tokens := 2048 |} in
     let summaryContent := or_else (first_choice_content completion) [] in
     let wordCount := length (split_ws (trim summaryContent)) in
     let* summary :=
       createSummary
         {| InsertSummary.transcriptId := Transcript.id transcript;
            InsertSummary.content := summaryContent;
            InsertSummary.customInstructions := Some instructions;
            InsertSummary.wordCount := Some (toString wordCount) |} in
     res_json (SummaryBody summary))
    (λ error,
       match error with
       | ZodError errors =>
           res_status_json 400
             (InvalidBody (lit "Invalid request data") errors)
       | _ =>
           res_status_json 500
             (MessageBody (lit "Failed to generate summary"))
       end).

(** [PATCH /api/summaries/:id] *)
Definition patch_summaries (id : jsstring) (body : JsValue) : M Response :=
  try_catch
    (let* content :=
       match destructure body (lit "content") with
       | Some v => ret v
       | None => throw TypeError
       end in
     if negb (truthy content) || negb (typeof_string content) then
       res_status_json 400 (MessageBody (lit "Content is required"))
     else
       match content with
       | JString content =>
           let* updatedSummary := updateSummary id content in
           match updatedSummary with
           | None =>
               res_status_json 404 (MessageBody (lit "Summary not found"))
           | Some updatedSummary => res_json (SummaryBody updatedSummary)
           end
       | _ => throw TypeError
       end)
    (λ error,
       res_status_json 500 (MessageBody (lit "Failed to update summary"))).

(** [GET /api/summaries/:id] *)
Definition get_summaries (id : jsstring) : M Response :=
  try_catch
    (let* summary := getSummary id in
     match summary with
     | None => res_status_json 404 (MessageBody (lit "Summary not found"))
     | Some summary => res_json (SummaryBody summary)
     end)
    (λ error,
       res_status_json 500 (MessageBody (lit "Failed to fetch summary"))).

(** [s.replace(/\n/g, '<br>')] *)
Definition replace_newlines (s : jsstring) : jsstring :=
  c ← s; if c =? LF then lit "<br>" else [c].

(** The template literal of the email body, before [.trim()]. *)
Definition emailBody_template (message : option jsstring)
    (content : jsstring) : jsstring :=
  [LF] ++
  match message with
  | Some m => if bool_decide (m = []) then [] else m ++ [LF; LF]
  | None => []
  end ++
  [LF] ++ lit "---" ++ [LF] ++ content ++ [LF] ++ lit "---" ++ [LF] ++
  [LF] ++
  lit "This summary was generated using AI and may require review." ++
  [LF] ++ lit "      ".

(** [POST /api/summaries/email] *)
Definition post_summaries_email (body : JsValue) : M Response :=
  try_catch
    (let* validatedData := sendEmailSchema_parse body in
     let summaryId := req_summaryId validatedData in
     let recipients := req_recipients validatedData in
     let subject := req_subject validatedData in
     let message := req_message validatedData in
     let* summary := getSummary summaryId in
     match summary with
     | None => res_status_json 404 (MessageBody (lit "Summary not found"))
     | Some summary =>
         let emailBody :=
           trim (emailBody_template message (Summary.content summary)) in
         let* emailPromises :=
           Array_map
             (λ recipient,
                transporter_sendMail
                  {| mail_from :=
                       or_else env_SMTP_USER
                         (or_else env_EMAIL_USER (lit "noreply@example.com"));
                     mail_to := recipient;
                     mail_subject := subject;
                     mail_text := emailBody;
                     mail_html := replace_newlines emailBody |})
             recipients in
         Promise_all emailPromises ;;;
         let* emailShare :=
           createEmailShare
             {| InsertEmailShare.summaryId := summaryId;
                InsertEmailShare.recipients := JSON_stringify recipients;
                InsertEmailShare.subject := subject;
                InsertEmailShare.message := or_null message |} in
         res_json
           (EmailSentBody
              (lit "Summary sent successfully to " ++
               toString (length recipients) ++ lit " recipient(s)")
              emailShare)
     end)
    (λ error,
       match error with
       | ZodError errors =>
           res_status_json 400
             (InvalidBody (lit "Invalid request data") errors)
       | _ => res_status_json 500 (MessageBody (lit "Failed to send email"))
       end).

End Model.

(** The message the send-email handler hands to the mail service for one
    recipient of a validated request about [summary]. *)
Definition outgoing_mail `{Collaborators} (request : SendEmailRequest)
    (summary : Summary.t) (recipient : jsstring) : MailOptions :=
  let emailBody :=
    trim (emailBody_template (req_message request) (Summary.content summary)) in
  {| mail_from :=
       or_else env_SMTP_USER
         (or_else env_EMAIL_USER (lit "noreply@example.com"));
     mail_to := recipient;
     mail_subject := req_subject request;
     mail_text := emailBody;
     mail_html := replace_newlines emailBody |}.

(** The request the generate handler sends to the completion service. *)
Definition completion_request (prompt : jsstring) : ChatRequest :=
  {| messages := [mkChatMessage (lit "user") prompt];
     model := lit "llama-3.3-70b-versatile";
     temperature := 3 # 10;
     max_tokens := 2048 |}.

(** A body that passes [generateSummarySchema]: [transcriptContent] is a
    string that is not empty, [customInstructions] is missing ([ci = None])
    or a string. *)
Definition generate_valid (fields : list (jsstring * JsValue))
    (tc : jsstring) (ci : option jsstring) : Prop :=
  own_property fields (lit "transcriptContent") = JString tc ∧
  tc ≠ [] ∧
  own_property fields (lit "customInstructions") =
    match ci with Some s => JString s | None => JUndefined end.

Definition generate_prompt (ci : option jsstring) (tc : jsstring) : jsstring :=
  or_else ci defaultInstructions ++ [LF; LF] ++ lit "Transcript:" ++ [LF] ++ tc.

(** Whether the scan of [split_scan], started in state [b], ends inside a
    separator. *)
Fixpoint ends_sep (b : bool) (s : jsstring) : bool :=
  match s with
  | [] => b
  | c :: s' => ends_sep (isWhiteSpace c) s'
  end.

(** ** A concrete environment, to run the handlers on examples *)

Module Demo.

Definition contains_at (s : jsstring) : bool :=
  existsb (N.eqb 0x40) s.

(** Enough of [JSON.stringify] for addresses without quotes, backslashes
    or control characters. *)
Fixpoint quoted_list (xs : list jsstring) : jsstring :=
  match xs with
  | [] => []
  | [x] => [0x22] ++ x ++ [0x22]
  | x :: xs' => [0x22] ++ x ++ [0x22] ++ lit "," ++ quoted_list xs'
  end.

Definition completion_text : jsstring :=
  lit "Ship on Friday.  Bob agreed.".

(** Identifiers [id-0], [id-1], ...; a clock that ticks once per reading;
    a completion service that always answers [completion_text]; a mail
    service that rejects the one address [bounce@example.com]. *)
#[export] Instance env : Collaborators := {|
  randomUUID_nth n := lit "id-" ++ toString n;
  Date_nth n := (1700000000000 + Z.of_nat n)%Z;
  groq_create _ _ :=
    Some (mkChatCompletion
            [mkChoice (Some (mkChoiceMessage (Some completion_text)))]);
  sendMail _ options :=
    negb (bool_decide (mail_to options = lit "bounce@example.com"));
  env_SMTP_USER := None;
  env_EMAIL_USER := None;
  JSON_stringify xs := lit "[" ++ quoted_list xs ++ lit "]";
  zod_isEmail := contains_at |}.

(** The same, with a completion service that returns no choice. *)
Definition env_silent : Collaborators := {|
  randomUUID_nth := @randomUUID_nth env;
  Date_nth := @Date_nth env;
  groq_create _ _ := Some (mkChatCompletion []);
  sendMail := @sendMail env;
  env_SMTP_USER := None;
  env_EMAIL_USER := None;
  JSON_stringify := @JSON_stringify env;
  zod_isEmail := contains_at |}.

Definition world0 : World := mkWorld MemStorage_new 0 0 [] [].

Definition summary1 : Summary.t :=
  {| Summary.id := lit "s1";
     Summary.transcriptId := lit "t1";
     Summary.content := lit "first draft";
     Summary.customInstructions := None;
     Summary.wordCount := Some (lit "2");
     Summary.createdAt := 1000%Z |}.

Definition summary2 : Summary.t :=
  {| Summary.id := lit "s2";
     Summary.transcriptId := lit "t2";
     Summary.content := lit "other";
     Summary.customInstructions := None;
     Summary.wordCount := Some (lit "1");
     Summary.createdAt := 2000%Z |}.

Definition summary3 : Summary.t :=
  {| Summary.id := lit "s3";
     Summary.transcriptId := lit "t1";
     Summary.content := lit "second draft, longer";
     Summary.customInstructions := Some (lit "be brief");
     Summary.wordCount := Some (lit "3");
     Summary.createdAt := 3000%Z |}.

(** A store holding three summaries, two of them of transcript [t1]. *)
Definition world1 : World :=
  mkWorld (mkStorage []
             [(lit "s1", summary1); (lit "s2", summary2);
              (lit "s3", summary3)] [])
          7 7 [] [].

Definition generate_body : JsValue :=
  JObject [(lit "transcriptContent",
            JString (lit "Alice: let's ship Friday. Bob: agreed."))].

Definition email_body (recipients : list JsValue) : JsValue :=
  JObject [(lit "summaryId", JString (lit "s1"));
           (lit "recipients", JArray recipients);
           (lit "subject", JString (lit "Notes"))].

End Demo.

(** ** The upload route

    [multer] has parsed the multipart body before the handler runs:
    [req.file] is [undefined] when the request carries no file in the field
    [file], and otherwise holds the bytes, the declared content type and
    the original name of the file.  What [multer] does with a file that
    [fileFilter] refuses or that exceeds the size limit happens outside the
    handler and is not modelled. *)

Record UploadedFile := mkFile {
  mimetype : jsstring;
  originalname : jsstring;
  buffer : list N }.

Definition docx_mimetype : jsstring :=
  lit "application/vnd.openxmlformats-officedocument.wordprocessingml.document".

(** The [fileFilter] option: [None] for [cb(null, true)], the message of
    the error otherwise. *)
Definition fileFilter (file : UploadedFile) : option jsstring :=
  if bool_decide (mimetype file = lit "text/plain") ||
     bool_decide (mimetype file = docx_mimetype)
  then None
  else Some (lit "Only .txt and .docx files are allowed").

(** [10 * 1024 * 1024] *)
Definition fileSize_limit : N := 10 * 1024 * 1024.

Section Upload.
Context `{Collaborators}.

(** [buffer.toString('utf-8')] *)
Variable Buffer_toString_utf8 : list N → jsstring.

(** [POST /api/transcripts/upload], after [upload.single('file')] *)
Definition post_transcripts_upload (file : option UploadedFile) : M Response :=
  try_catch
    (match file with
     | None => res_status_json 400 (MessageBody (lit "No file uploaded"))
     | Some file =>
         let content :=
           if bool_decide (mimetype file = lit "text/plain")
           then Buffer_toString_utf8 (buffer file)
           else Buffer_toString_utf8 (buffer file) in
         let* transcript :=
           createTranscript
             {| InsertTranscript.content := content;
                InsertTranscript.fileName := Some (originalname file) |} in
         res_json (TranscriptBody transcript)
     end)
    (λ error,
       res_status_json 500 (MessageBody (lit "Failed to upload transcript"))).

End Upload.

(** ** The routes ([registerRoutes])

    A request that reaches one of the six handlers, and the server as the
    function that runs the handlers of a sequence of requests one after the
    other. *)

Inductive Request :=
| PostTranscriptsUpload (file : option UploadedFile)
| PostTranscripts (body : JsValue)
| PostSummariesGenerate (body : JsValue)
| PatchSummaries (id : jsstring) (body : JsValue)
| GetSummaries (id : jsstring)
| PostSummariesEmail (body : JsValue).

Section Routes.
Context `{Collaborators}.
Variable Buffer_toString_utf8 : list N → jsstring.

Definition handle (request : Request) : M Response :=
  match request with
  | PostTranscriptsUpload file =>
      post_transcripts_upload Buffer_toString_utf8 file
  | PostTranscripts body => post_transcripts body
  | PostSummariesGenerate body => post_summaries_generate body
  | PatchSummaries id body => patch_summaries id body
  | GetSummaries id => get_summaries id
  | PostSummariesEmail body => post_summaries_email body
  end.

Fixpoint serve (requests : list Request) (w : World) : World :=
  match requests with
  | [] => w
  | request :: requests' => serve requests' (handle request w).2
  end.

End Routes.

(** The world of a server that has just started. *)
Definition World_new : World := mkWorld MemStorage_new 0 0 [] [].

(** ** Relations between the world before and after a run *)

(** Every run of [m] takes a world to one related to it by [R]. *)
Definition respects {A} (R : relation World) (m : M A) : Prop :=
  ∀ w o w', m w = (o, w') → R w w'.

(** A collection is keyed by the identifiers of its records, each key
    occurring once. *)
Definition keyed_by {V} (id_of : V → jsstring) (m : JsMap V) : Prop :=
  NoDup (Map_keys m) ∧ Forall (λ kv, id_of kv.2 = kv.1) m.

Definition store_ok (st : MemStorage) : Prop :=
  keyed_by Transcript.id (transcripts st) ∧
  keyed_by Summary.id (summaries st) ∧
  keyed_by EmailShare.id (emailShares st).

Definition keeps_store_ok : relation World :=
  λ w w', store_ok (storage w) → store_ok (storage w').

(** Nothing is removed or reordered: the keys of each collection and the
    two call logs are extended at the end, the counters do not go back. *)
Definition grows : relation World :=
  λ w w',
    Map_keys (transcripts (storage w))
      `prefix_of` Map_keys (transcripts (storage w')) ∧
    Map_keys (summaries (storage w))
      `prefix_of` Map_keys (summaries (storage w')) ∧
    Map_keys (emailShares (storage w))
      `prefix_of` Map_keys (emailShares (storage w')) ∧
    groq_calls w `prefix_of` groq_calls w' ∧
    mail_calls w `prefix_of` mail_calls w' ∧
    (uuid_draws w ≤ uuid_draws w')%nat ∧
    (date_reads w ≤ date_reads w')%nat.

(** What each route leaves alone. *)
Definition email_frame : relation World :=
  λ w w',
    transcripts (storage w') = transcripts (storage w) ∧
    summaries (storage w') = summaries (storage w) ∧
    groq_calls w' = groq_calls w.

Definition generate_frame : relation World :=
  λ w w',
    emailShares (storage w') = emailShares (storage w) ∧
    mail_calls w' = mail_calls w.

Definition transcript_frame : relation World :=
  λ w w',
    summaries (storage w') = summaries (storage w) ∧
    emailShares (storage w') = emailShares (storage w) ∧
    groq_calls w' = groq_calls w ∧
    mail_calls w' = mail_calls w.

Definition patch_frame : relation World :=
  λ w w',
    transcripts (storage w') = transcripts (storage w) ∧
    emailShares (storage w') = emailShares (storage w) ∧
    Map_keys (summaries (storage w')) = Map_keys (summaries (storage w)) ∧
    uuid_draws w' = uuid_draws w ∧
    date_reads w' = date_reads w ∧
    groq_calls w' = groq_calls w ∧
    mail_calls w' = mail_calls w.

(** The text every mail ends with: the summary between two rules, then the
    disclaimer. *)
Definition email_tail (content : jsstring) : jsstring :=
  lit "---" ++ [LF] ++ content ++ [LF] ++ lit "---" ++ [LF; LF] ++
  lit "This summary was generated using AI and may require review.".

(** A body that passes [sendEmailSchema], and the request it yields. *)
Definition send_email_valid `{Collaborators}
    (fields : list (jsstring * JsValue)) (request : SendEmailRequest) : Prop :=
  own_property fields (lit "summaryId") = JString (req_summaryId request) ∧
  req_summaryId request ≠ [] ∧
  own_property fields (lit "recipients") =
    JArray (JString <$> req_recipients request) ∧
  req_recipients request ≠ [] ∧
  Forall (λ r, zod_isEmail r = true) (req_recipients request) ∧
  own_property fields (lit "subject") = JString (req_subject request) ∧
  req_subject request ≠ [] ∧
  own_property fields (lit "message") =
    match req_message request with
    | Some m => JString m
    | None => JUndefined
    end.

Module DemoDown.

(** The demo environment with a completion service that is down. *)
Definition env : Collaborators := {|
  randomUUID_nth := @randomUUID_nth Demo.env;
  Date_nth := @Date_nth Demo.env;
  groq_create _ _ := None;
  sendMail := @sendMail Demo.env;
  env_SMTP_USER := None;
  env_EMAIL_USER := None;
  JSON_stringify := @JSON_stringify Demo.env;
  zod_isEmail := @zod_isEmail Demo.env |}.

(** Bytes to code units, one for one: UTF-8 decoding of ASCII text. *)
Definition ascii_decode (bytes : list N) : jsstring := bytes.

Definition notes_file : UploadedFile :=
  {| mimetype := docx_mimetype;
     originalname := lit "notes.docx";
     buffer := lit "  raw notes " |}.

End DemoDown.

(** * Properties *)

(** ** Strings: trimming, splitting, counting *)

Example split_trimmed :
  split_ws (trim (lit "  a   b  ")) = [lit "a"; lit "b"].
Proof. reflexivity. Qed.

Example split_untrimmed :
  split_ws (lit " a ") = [[]; lit "a"; []].
Proof. reflexivity. Qed.

Example split_line_breaks :
  split_ws (trim ([LF] ++ lit "a" ++ [0x2028; 0xA0; 0x09] ++ lit "b")) =
  [lit "a"; lit "b"].
Proof. reflexivity. Qed.

Example toString_examples :
  toString 0 = lit "0" ∧ toString 12 = lit "12" ∧ toString 2048 = lit "2048".
Proof. repeat split; reflexivity. Qed.

Lemma split_scan_length b cur s :
  length (split_scan b cur s) =
  (count_runs b s + (if b then 0 else 1) + (if ends_sep b s then 1 else 0))%nat.
Proof.
  revert b cur. induction s as [|c s IH]; intros b cur; simpl.
  - destruct b; reflexivity.
  - destruct (isWhiteSpace c), b; simpl; rewrite IH; simpl; lia.
Qed.

Lemma trimStart_head s :
  trimStart s = [] ∨ ∃ c t, trimStart s = c :: t ∧ isWhiteSpace c = false.
Proof.
  induction s as [|c s IH]; simpl; [by left|].
  destruct (isWhiteSpace c) eqn:Hc; [exact IH|]. right. by exists c, s.
Qed.

Lemma trimEnd_head c s :
  isWhiteSpace c = false → ∃ t, trimEnd (c :: s) = c :: t.
Proof.
  intros Hc. simpl. destruct (trimEnd s); rewrite ?Hc; eauto.
Qed.

Lemma trimEnd_ends b s : trimEnd s ≠ [] → ends_sep b (trimEnd s) = false.
Proof.
  revert b. induction s as [|c s IH]; intros b; simpl; [done|].
  destruct (trimEnd s) as [|d t] eqn:Ht.
  - destruct (isWhiteSpace c) eqn:Hc; [done|]. intros _. simpl. exact Hc.
  - intros _. change (ends_sep (isWhiteSpace c) (d :: t) = false).
    by apply IH.
Qed.

Lemma count_runs_trimStart s : count_runs true (trimStart s) = count_runs true s.
Proof.
  induction s as [|c s IH]; simpl; [done|].
  destruct (isWhiteSpace c) eqn:Hc; [exact IH|]. simpl. by rewrite Hc.
Qed.

Lemma count_runs_trimEnd b s : count_runs b (trimEnd s) = count_runs b s.
Proof.
  revert b. induction s as [|c s IH]; intros b; simpl; [done|].
  destruct (trimEnd s) as [|d t] eqn:Ht.
  - destruct (isWhiteSpace c) eqn:Hc; simpl; rewrite ?Hc, <- IH; done.
  - change (count_runs b (c :: d :: t)) with
      (if isWhiteSpace c then count_runs true (d :: t)
       else ((if b then 1 else 0) + count_runs false (d :: t))%nat).
    by rewrite !IH.
Qed.

Lemma words_trim s : words (trim s) = words s.
Proof.
  unfold words, trim. by rewrite count_runs_trimEnd, count_runs_trimStart.
Qed.

(** The expression of the code against the number of words: they agree
    except on blank content, where the code counts one (empty) piece. *)
Lemma split_trim_length s :
  length (split_ws (trim s)) = Nat.max 1 (words s).
Proof.
  rewrite <- (words_trim s). unfold split_ws, words.
  rewrite split_scan_length. unfold trim.
  destruct (trimStart_head s) as [E|(c & t & E & Hc)]; rewrite E.
  - reflexivity.
  - destruct (trimEnd_head c t Hc) as [u Hu].
    rewrite (trimEnd_ends false) by (rewrite Hu; done).
    rewrite Hu. simpl. rewrite Hc. lia.
Qed.

Lemma split_trim_positive s : (1 ≤ length (split_ws (trim s)))%nat.
Proof. rewrite split_trim_length. lia. Qed.

Lemma trim_blank s : forallb isWhiteSpace s = true → trim s = [].
Proof.
  unfold trim. induction s as [|c s IH]; simpl; [done|].
  intros [Hc Hs]%andb_prop. rewrite Hc. auto.
Qed.

Lemma split_trim_blank s :
  forallb isWhiteSpace s = true → length (split_ws (trim s)) = 1%nat.
Proof. intros Hs. by rewrite trim_blank. Qed.

(** ** Decimal rendering *)

Lemma digits_inj u v : digits u = digits v → u = v.
Proof.
  revert v. induction u; intros []; simpl; intros E;
    try discriminate; try reflexivity;
    f_equal; apply IHu; congruence.
Qed.

Lemma toString_inj n m : toString n = toString m → n = m.
Proof. intros E. apply DecimalNat.Unsigned.to_uint_inj, digits_inj, E. Qed.

Lemma toString_nonempty n : toString n ≠ [].
Proof.
  unfold toString. intros E.
  assert (Nat.to_uint n = Decimal.Nil) as E'
    by (apply digits_inj; exact E).
  pose proof (DecimalNat.Unsigned.of_to n) as Hn. rewrite E' in Hn.
  pose proof (DecimalNat.Unsigned.to_of Decimal.Nil) as Ht.
  rewrite Hn, E' in Ht. discriminate Ht.
Qed.

Lemma toString_zero n : toString n = lit "0" → n = 0%nat.
Proof. intros E. by apply toString_inj. Qed.

(** ** The insertion-ordered map *)

Lemma Map_get_set_eq {V} k (v : V) m : Map_get k (Map_set k v m) = Some v.
Proof.
  induction m as [|[k' v'] m IH]; simpl.
  - by rewrite decide_True.
  - destruct (decide (k' = k)) as [->|Hne]; simpl.
    + by rewrite decide_True.
    + by rewrite decide_False.
Qed.

Lemma Map_get_set_ne {V} k k' (v : V) m :
  k ≠ k' → Map_get k' (Map_set k v m) = Map_get k' m.
Proof.
  intros Hne. induction m as [|[k0 v0] m IH]; simpl.
  - by rewrite decide_False.
  - destruct (decide (k0 = k)) as [->|Hk]; simpl.
    + by rewrite !decide_False.
    + destruct (decide (k0 = k')); [done | exact IH].
Qed.

(** A new key goes to the end of the iteration order. *)
Lemma Map_set_fresh {V} k (v : V) m :
  Map_get k m = None → Map_set k v m = m ++ [(k, v)].
Proof.
  induction m as [|[k' v'] m IH]; simpl; [done|].
  destruct (decide (k' = k)); [done|]. intros Hm. by rewrite IH.
Qed.

(** Setting a key never moves, adds or drops another key; a key that is
    present keeps its place. *)
Lemma Map_keys_set_present {V} k (v : V) m :
  is_Some (Map_get k m) → Map_keys (Map_set k v m) = Map_keys m.
Proof.
  unfold Map_keys. induction m as [|[k' v'] m IH]; simpl.
  - by intros [? ?].
  - destruct (decide (k' = k)) as [->|Hne]; simpl; [done|].
    intros Hm. f_equal. by apply IH.
Qed.

Lemma Map_get_values {V} k (v : V) m :
  Map_get k m = Some v → v ∈ Map_values m.
Proof.
  unfold Map_values. induction m as [|[k' v'] m IH]; simpl; [done|].
  destruct (decide (k' = k)).
  - intros [= ->]. apply list_elem_of_here.
  - intros Hm. apply list_elem_of_further. auto.
Qed.

(** ** The store *)

(** What [updateSummary] does on an identifier that is present. *)
Lemma updateSummary_found id content w summary :
  Map_get id (summaries (storage w)) = Some summary →
  let updated :=
    {| Summary.id := Summary.id summary;
       Summary.transcriptId := Summary.transcriptId summary;
       Summary.content := content;
       Summary.customInstructions := Summary.customInstructions summary;
       Summary.wordCount := Some (toString (length (split_ws (trim content))));
       Summary.createdAt := Summary.createdAt summary |} in
  updateSummary id content w =
  (Returned (Some updated),
   mkWorld (mkStorage (transcripts (storage w))
                      (Map_set id updated (summaries (storage w)))
                      (emailShares (storage w)))
           (uuid_draws w) (date_reads w) (groq_calls w) (mail_calls w)).
Proof.
  intros Hget. unfold updateSummary, bind, get_storage, put_storage, ret.
  simpl. rewrite Hget. reflexivity.
Qed.

Lemma updateSummary_missing id content w :
  Map_get id (summaries (storage w)) = None →
  updateSummary id content w = (Returned None, w).
Proof.
  intros Hget. unfold updateSummary, bind, get_storage, ret.
  simpl. by rewrite Hget.
Qed.

Lemma createSummary_run `{Collaborators} insertSummary w :
  let id := randomUUID_nth (uuid_draws w) in
  let summary :=
    {| Summary.id := id;
       Summary.transcriptId := InsertSummary.transcriptId insertSummary;
       Summary.content := InsertSummary.content insertSummary;
       Summary.customInstructions :=
         or_null (InsertSummary.customInstructions insertSummary);
       Summary.wordCount := or_null (InsertSummary.wordCount insertSummary);
       Summary.createdAt := Date_nth (date_reads w) |} in
  createSummary insertSummary w =
  (Returned summary,
   mkWorld (mkStorage (transcripts (storage w))
                      (Map_set id summary (summaries (storage w)))
                      (emailShares (storage w)))
           (S (uuid_draws w)) (S (date_reads w))
           (groq_calls w) (mail_calls w)).
Proof. reflexivity. Qed.

Lemma createTranscript_run `{Collaborators} insertTranscript w :
  let id := randomUUID_nth (uuid_draws w) in
  let transcript :=
    {| Transcript.id := id;
       Transcript.content := InsertTranscript.content insertTranscript;
       Transcript.fileName :=
         or_null (InsertTranscript.fileName insertTranscript);
       Transcript.createdAt := Date_nth (date_reads w) |} in
  createTranscript insertTranscript w =
  (Returned transcript,
   mkWorld (mkStorage (Map_set id transcript (transcripts (storage w)))
                      (summaries (storage w))
                      (emailShares (storage w)))
           (S (uuid_draws w)) (S (date_reads w))
           (groq_calls w) (mail_calls w)).
Proof. reflexivity. Qed.

(** C6. On an identifier that is not in the summary store, [updateSummary]
    returns the not-found value [undefined] (it does not throw), and the
    world it leaves is the one it found: no record is created, nothing in
    the store changes. *)
Theorem updateSummary_unknown_id id content w :
  Map_get id (summaries (storage w)) = None →
  updateSummary id content w = (Returned None, w).
Proof. apply updateSummary_missing. Qed.

Lemma updateSummary_unknown_id_witness :
  Map_get (lit "nope") (summaries (storage Demo.world1)) = None ∧
  updateSummary (lit "nope") (lit "new text") Demo.world1 =
  (Returned None, Demo.world1).
Proof.
  split; [reflexivity|].
  apply (updateSummary_unknown_id (lit "nope") (lit "new text") Demo.world1).
  reflexivity.
Defined.

(** C7. On a summary that is in the store, [updateSummary id newContent]
    returns the updated record and stores it under [id]; its [id],
    [transcriptId], [customInstructions] and [createdAt] are those of the
    record it replaces and its [content] is [newContent].  Every other
    entry of the summary store, the iteration order of its keys, the two
    other collections and the rest of the world are left as they were. *)
Theorem updateSummary_preserves_other_fields id newContent w summary :
  Map_get id (summaries (storage w)) = Some summary →
  ∃ updated w',
    updateSummary id newContent w = (Returned (Some updated), w') ∧
    Map_get id (summaries (storage w')) = Some updated ∧
    Summary.id updated = Summary.id summary ∧
    Summary.transcriptId updated = Summary.transcriptId summary ∧
    Summary.customInstructions updated = Summary.customInstructions summary ∧
    Summary.createdAt updated = Summary.createdAt summary ∧
    Summary.content updated = newContent ∧
    (∀ k, k ≠ id →
       Map_get k (summaries (storage w')) = Map_get k (summaries (storage w))) ∧
    Map_keys (summaries (storage w')) = Map_keys (summaries (storage w)) ∧
    transcripts (storage w') = transcripts (storage w) ∧
    emailShares (storage w') = emailShares (storage w) ∧
    uuid_draws w' = uuid_draws w ∧ date_reads w' = date_reads w ∧
    groq_calls w' = groq_calls w ∧ mail_calls w' = mail_calls w.
Proof.
  intros Hget. eexists _, _. split; [by apply updateSummary_found|].
  simpl. split; [apply Map_get_set_eq|].
  repeat split; try reflexivity.
  - intros k Hk. by apply Map_get_set_ne.
  - apply Map_keys_set_present. by rewrite Hget.
Qed.

Lemma updateSummary_preserves_other_fields_witness :
  ∃ updated w',
    updateSummary (lit "s3") (lit "rewritten") Demo.world1 =
      (Returned (Some updated), w') ∧
    Map_get (lit "s3") (summaries (storage w')) = Some updated ∧
    Summary.id updated = lit "s3" ∧
    Summary.transcriptId updated = lit "t1" ∧
    Summary.customInstructions updated = Some (lit "be brief") ∧
    Summary.createdAt updated = 3000%Z ∧
    Summary.content updated = lit "rewritten".
Proof.
  destruct (updateSummary_preserves_other_fields
              (lit "s3") (lit "rewritten") Demo.world1 Demo.summary3
              eq_refl)
    as (updated & w' & Hrun & Hget & H1 & H2 & H3 & H4 & H5 & _).
  exists updated, w'. repeat split; assumption.
Defined.

(** C3. For every identifier present in the store,
    [updateSummary(id, "one two three")] stores the word count ["3"] and
    [updateSummary(id, "  a   b  ")] stores ["2"].  In general the stored
    count is the number of maximal runs of code units that are not white
    space (and 1 when there is none): white space at either end is dropped
    and a run of white space inside, whatever its length, separates once. *)
Theorem updateSummary_word_count_examples id w summary :
  Map_get id (summaries (storage w)) = Some summary →
  (∃ updated w',
     updateSummary id (lit "one two three") w = (Returned (Some updated), w') ∧
     Map_get id (summaries (storage w')) = Some updated ∧
     Summary.wordCount updated = Some (lit "3")) ∧
  (∃ updated w',
     updateSummary id (lit "  a   b  ") w = (Returned (Some updated), w') ∧
     Map_get id (summaries (storage w')) = Some updated ∧
     Summary.wordCount updated = Some (lit "2")) ∧
  (∀ content, ∃ updated w',
     updateSummary id content w = (Returned (Some updated), w') ∧
     Map_get id (summaries (storage w')) = Some updated ∧
     Summary.wordCount updated = Some (toString (Nat.max 1 (words content)))).
Proof.
  intros Hget.
  assert (∀ content, ∃ updated w',
     updateSummary id content w = (Returned (Some updated), w') ∧
     Map_get id (summaries (storage w')) = Some updated ∧
     Summary.wordCount updated =
       Some (toString (Nat.max 1 (words content)))) as Hgen.
  { intros content. eexists _, _.
    split; [by apply updateSummary_found|].
    split; [apply Map_get_set_eq|].
    simpl. by rewrite split_trim_length. }
  split; [exact (Hgen (lit "one two three"))|].
  split; [exact (Hgen (lit "  a   b  "))|exact Hgen].
Qed.

Lemma updateSummary_word_count_examples_witness :
  ∃ updated w',
    updateSummary (lit "s1") (lit "one two three") Demo.world1 =
      (Returned (Some updated), w') ∧
    Map_get (lit "s1") (summaries (storage w')) = Some updated ∧
    Summary.wordCount updated = Some (lit "3").
Proof.
  exact (proj1 (updateSummary_word_count_examples
                  (lit "s1") Demo.world1 Demo.summary1 eq_refl)).
Defined.

Example updateSummary_tabs_and_line_breaks :
  ∃ updated w',
    updateSummary (lit "s2")
      ([0x09] ++ lit "alpha" ++ [LF; 0x0D; 0xA0] ++ lit "beta" ++ [0x3000])
      Demo.world1 = (Returned (Some updated), w') ∧
    Summary.wordCount updated = Some (lit "2").
Proof.
  eexists _, _. split.
  - apply (updateSummary_found _ _ _ Demo.summary2). reflexivity.
  - reflexivity.
Qed.

(** The values of a map that received a new key: the new value comes last. *)
Lemma Map_values_set_fresh {V} k (v : V) m :
  Map_get k m = None → Map_values (Map_set k v m) = Map_values m ++ [v].
Proof.
  intros Hm. rewrite Map_set_fresh by done.
  unfold Map_values. by rewrite fmap_app.
Qed.

(** C8. [getSummariesByTranscriptId] returns, without changing anything,
    the stored summaries whose [transcriptId] is the argument and no other,
    in the iteration order of the summary map, which is the order of
    insertion: a summary created under a new identifier is appended to the
    result for its transcript and changes no other result.  When no stored
    summary refers to the transcript the result is empty. *)
Theorem getSummariesByTranscriptId_matching_in_order transcriptId w :
  ∃ found,
    getSummariesByTranscriptId transcriptId w = (Returned found, w) ∧
    found = filter (λ s, Summary.transcriptId s = transcriptId)
                   (Map_values (summaries (storage w))) ∧
    (∀ s, s ∈ found ↔
          s ∈ Map_values (summaries (storage w)) ∧
          Summary.transcriptId s = transcriptId) ∧
    found `sublist_of` Map_values (summaries (storage w)) ∧
    ((∀ s, s ∈ Map_values (summaries (storage w)) →
           Summary.transcriptId s ≠ transcriptId) → found = []) ∧
    (∀ (C : Collaborators) insertSummary created w1,
       @createSummary C insertSummary w = (Returned created, w1) →
       Map_get (Summary.id created) (summaries (storage w)) = None →
       getSummariesByTranscriptId transcriptId w1 =
       (Returned
          (found ++
           if decide (InsertSummary.transcriptId insertSummary = transcriptId)
           then [created] else []), w1)).
Proof.
  eexists. split; [reflexivity|]. simpl.
  split; [reflexivity|].
  split; [intros s; rewrite list_elem_of_filter; tauto|].
  split; [apply sublist_filter|].
  split.
  - intros Hnone.
    destruct (filter _ _) as [|s l] eqn:E; [done|]. exfalso.
    assert (s ∈ filter (λ s, Summary.transcriptId s = transcriptId)
                       (Map_values (summaries (storage w)))) as Hs
      by (rewrite E; apply list_elem_of_here).
    apply list_elem_of_filter in Hs as [Hp Hs]. by apply (Hnone s).
  - intros C insertSummary created w1 Hrun Hfresh.
    rewrite createSummary_run in Hrun. injection Hrun as <- <-.
    simpl in Hfresh.
    unfold getSummariesByTranscriptId, bind, get_storage, ret. simpl.
    rewrite Map_values_set_fresh by exact Hfresh.
    rewrite filter_app. reflexivity.
Qed.

Example getSummariesByTranscriptId_t1 :
  getSummariesByTranscriptId (lit "t1") Demo.world1 =
  (Returned [Demo.summary1; Demo.summary3], Demo.world1).
Proof. reflexivity. Qed.

Example getSummariesByTranscriptId_none :
  getSummariesByTranscriptId (lit "t9") Demo.world1 =
  (Returned [], Demo.world1).
Proof. reflexivity. Qed.

(** An update keeps the place of the summary in the result. *)
Example getSummariesByTranscriptId_after_update :
  ∃ updated w',
    updateSummary (lit "s1") (lit "a b c d") Demo.world1 =
      (Returned (Some updated), w') ∧
    getSummariesByTranscriptId (lit "t1") w' =
      (Returned [updated; Demo.summary3], w').
Proof.
  eexists _, _. split.
  - apply (updateSummary_found _ _ _ Demo.summary1). reflexivity.
  - reflexivity.
Qed.

(** ** The send-email handler *)

Lemma world_eta w :
  mkWorld (storage w) (uuid_draws w) (date_reads w) (groq_calls w)
          (mail_calls w) = w.
Proof. by destruct w. Qed.

(** The fan-out: every recipient's message is handed to the mail service,
    in order, whatever the fate of the earlier ones. *)
Lemma Array_map_sendMail `{Collaborators} (f : jsstring → MailOptions) rs w :
  Array_map (λ r, transporter_sendMail (f r)) rs w =
  (Returned (imap (λ i r, sendMail (length (mail_calls w) + i) (f r)) rs),
   mkWorld (storage w) (uuid_draws w) (date_reads w) (groq_calls w)
           (mail_calls w ++ (f <$> rs))).
Proof.
  revert w. induction rs as [|r rs IH]; intros w.
  - simpl. unfold ret. by rewrite app_nil_r, world_eta.
  - cbn [Array_map]. unfold bind at 1. unfold transporter_sendMail at 1.
    unfold bind at 1. rewrite IH. unfold ret. cbn.
    rewrite Nat.add_0_r, <- app_assoc. cbn. do 3 f_equal.
    apply imap_ext. intros i x _. cbn.
    f_equal. rewrite length_app. cbn. lia.
Qed.

Lemma forallb_lookup_false (l : list bool) i :
  l !! i = Some false → forallb (λ b : bool, b) l = false.
Proof.
  revert i. induction l as [|b l IH]; intros [|i]; simpl; try done.
  - by intros [= ->].
  - intros Hi. rewrite (IH i Hi). apply andb_false_r.
Qed.

(** C2. When a send-email request passes validation and its summary is
    found, and the mail service rejects the message of at least one
    recipient, the handler answers 500 ("Failed to send email"); the store
    is left as it was and no identifier or time stamp is drawn, so
    [createEmailShare] was not run; every recipient's message had been
    handed to the mail service. *)
Theorem send_email_failure_persists_nothing `{Collaborators}
    body w request summary i recipient :
  sendEmailSchema_parse body w = (Returned request, w) →
  Map_get (req_summaryId request) (summaries (storage w)) = Some summary →
  req_recipients request !! i = Some recipient →
  sendMail (length (mail_calls w) + i)
           (outgoing_mail request summary recipient) = false →
  ∃ w',
    post_summaries_email body w =
      (Returned (mkResponse 500 (MessageBody (lit "Failed to send email"))),
       w') ∧
    storage w' = storage w ∧
    uuid_draws w' = uuid_draws w ∧
    date_reads w' = date_reads w ∧
    mail_calls w' =
      mail_calls w ++ (outgoing_mail request summary <$> req_recipients request).
Proof.
  intros Hparse Hget Hi Hfail.
  unfold post_summaries_email, try_catch.
  unfold bind at 1. rewrite Hparse.
  unfold bind at 1. unfold getSummary, bind at 1, get_storage, ret at 1.
  rewrite Hget.
  pose proof (Array_map_sendMail (outgoing_mail request summary)
                (req_recipients request) w) as Hmap.
  unfold outgoing_mail in Hmap, Hfail. cbv zeta in *.
  unfold bind at 1. rewrite Hmap.
  unfold bind at 1, Promise_all.
  rewrite (forallb_lookup_false _ i).
  - unfold throw, res_status_json, ret. eexists. split; [reflexivity|].
    by simpl.
  - rewrite list_lookup_imap, Hi. exact (f_equal Some Hfail).
Qed.

Lemma send_email_failure_persists_nothing_witness :
  ∃ w',
    @post_summaries_email Demo.env
      (Demo.email_body
         [JString (lit "a@x.org"); JString (lit "bounce@example.com")])
      Demo.world1 =
      (Returned (mkResponse 500 (MessageBody (lit "Failed to send email"))),
       w') ∧
    storage w' = storage Demo.world1 ∧
    uuid_draws w' = 7%nat ∧
    date_reads w' = 7%nat ∧
    mail_to <$> mail_calls w' = [lit "a@x.org"; lit "bounce@example.com"].
Proof.
  destruct (@send_email_failure_persists_nothing Demo.env
              (Demo.email_body
                 [JString (lit "a@x.org"); JString (lit "bounce@example.com")])
              Demo.world1
              (mkSendEmail (lit "s1")
                 [lit "a@x.org"; lit "bounce@example.com"] (lit "Notes") None)
              Demo.summary1 1 (lit "bounce@example.com")
              eq_refl eq_refl eq_refl eq_refl)
    as (w' & Hrun & Hst & Hu & Hd & Hm).
  exists w'. repeat split; try assumption. by rewrite Hm.
Defined.

(** When every send succeeds the share is recorded. *)
Example send_email_success :
  ∃ emailShare w',
    @post_summaries_email Demo.env
      (Demo.email_body [JString (lit "a@x.org")]) Demo.world1 =
      (Returned
         (mkResponse 200
            (EmailSentBody (lit "Summary sent successfully to 1 recipient(s)")
               emailShare)), w') ∧
    Map_values (emailShares (storage w')) = [emailShare] ∧
    EmailShare.recipients emailShare = [0x5B; 0x22] ++ lit "a@x.org" ++ [0x22; 0x5D].
Proof. eexists _, _. split; [vm_compute; reflexivity|]. split; reflexivity. Qed.

Lemma own_property_cons k' v fields k :
  own_property ((k', v) :: fields) k =
  if decide (k' = k) then v else own_property fields k.
Proof. reflexivity. Qed.

(** C4. A send-email request whose [recipients] is the empty array fails
    validation: the handler answers 400 with the issue "At least one
    recipient is required" among the errors, and the world is untouched, so
    no message was handed to the mail service and nothing was written to
    the store. *)
Theorem send_email_empty_recipients_rejected `{Collaborators} fields w :
  own_property fields (lit "recipients") = JArray [] →
  ∃ errors,
    post_summaries_email (JObject fields) w =
      (Returned
         (mkResponse 400 (InvalidBody (lit "Invalid request data") errors)),
       w) ∧
    mkIssue too_small [Key (lit "recipients")]
            (Some (lit "At least one recipient is required")) ∈ errors.
Proof.
  intros Hrec.
  unfold post_summaries_email, try_catch, bind at 1, sendEmailSchema_parse.
  rewrite Hrec.
  set (r1 := z_string_min1 _ _ (own_property fields (lit "summaryId"))).
  set (r3 := z_string_min1 _ _ (own_property fields (lit "subject"))).
  set (r4 := z_string_optional _ (own_property fields (lit "message"))).
  exists (issues_of r1 ++
          [mkIssue too_small [Key (lit "recipients")]
             (Some (lit "At least one recipient is required"))] ++
          issues_of r3 ++ issues_of r4).
  split; [by destruct r1, r3, r4|].
  rewrite !elem_of_app. right. left. apply list_elem_of_here.
Qed.

Lemma send_email_empty_recipients_rejected_witness :
  ∃ errors,
    @post_summaries_email Demo.env (Demo.email_body []) Demo.world1 =
      (Returned
         (mkResponse 400 (InvalidBody (lit "Invalid request data") errors)),
       Demo.world1) ∧
    mkIssue too_small [Key (lit "recipients")]
            (Some (lit "At least one recipient is required")) ∈ errors.
Proof.
  apply (@send_email_empty_recipients_rejected Demo.env
           [(lit "summaryId", JString (lit "s1"));
            (lit "recipients", JArray []);
            (lit "subject", JString (lit "Notes"))] Demo.world1).
  reflexivity.
Defined.

(** ** The generate-summary handler *)

Lemma or_null_nonempty s : s ≠ [] → or_null (Some s) = Some s.
Proof. intros Hs. unfold or_null. by rewrite bool_decide_eq_false_2. Qed.

Lemma defaultInstructions_nonempty : defaultInstructions ≠ [].
Proof. discriminate. Qed.

Lemma or_else_nonempty x y : y ≠ [] → or_else x y ≠ [].
Proof.
  intros Hy. unfold or_else. destruct x as [s|]; [|done].
  destruct (bool_decide (s = [])) eqn:E; [done|].
  by apply bool_decide_eq_false in E.
Qed.

(** The two runs of the handler on a valid body: the completion service
    answers, or its promise is rejected. *)
Lemma post_summaries_generate_valid `{Collaborators} fields w tc ci :
  generate_valid fields tc ci →
  let transcript :=
    {| Transcript.id := randomUUID_nth (uuid_draws w);
       Transcript.content := tc;
       Transcript.fileName := None;
       Transcript.createdAt := Date_nth (date_reads w) |} in
  let request := completion_request (generate_prompt ci tc) in
  let stored_transcripts :=
    Map_set (Transcript.id transcript) transcript (transcripts (storage w)) in
  post_summaries_generate (JObject fields) w =
  match groq_create (length (groq_calls w)) request with
  | Some completion =>
      let summaryContent := or_else (first_choice_content completion) [] in
      let summary :=
        {| Summary.id := randomUUID_nth (S (uuid_draws w));
           Summary.transcriptId := Transcript.id transcript;
           Summary.content := summaryContent;
           Summary.customInstructions := Some (or_else ci defaultInstructions);
           Summary.wordCount :=
             Some (toString (length (split_ws (trim summaryContent))));
           Summary.createdAt := Date_nth (S (date_reads w)) |} in
      (Returned (mkResponse 200 (SummaryBody summary)),
       mkWorld (mkStorage stored_transcripts
                  (Map_set (Summary.id summary) summary
                           (summaries (storage w)))
                  (emailShares (storage w)))
               (S (S (uuid_draws w))) (S (S (date_reads w)))
               (groq_calls w ++ [request]) (mail_calls w))
  | None =>
      (Returned
         (mkResponse 500 (MessageBody (lit "Failed to generate summary"))),
       mkWorld (mkStorage stored_transcripts (summaries (storage w))
                          (emailShares (storage w)))
               (S (uuid_draws w)) (S (date_reads w))
               (groq_calls w ++ [request]) (mail_calls w))
  end.
Proof.
  intros (Htc & Hne & Hci). cbv zeta.
  unfold post_summaries_generate, try_catch, generateSummarySchema_parse.
  unfold bind at 1. rewrite Htc, Hci.
  assert (z_string_min1 "Transcript content is required"
            [Key (lit "transcriptContent")] (JString tc) = inr tc) as ->
    by (by destruct tc).
  assert (z_string_optional [Key (lit "customInstructions")]
            match ci with Some s => JString s | None => JUndefined end
          = inr ci) as -> by (by destruct ci).
  unfold ret at 1. cbv zeta.
  unfold bind at 1. rewrite createTranscript_run. cbv zeta.
  unfold bind at 1, groq_chat_completions_create.
  cbn [storage uuid_draws date_reads groq_calls mail_calls
       transcriptContent gen_customInstructions Transcript.id].
  unfold completion_request, generate_prompt.
  destruct (groq_create _ _) as [completion|]; [|reflexivity].
  unfold bind at 1. rewrite createSummary_run. cbv zeta.
  cbv beta iota delta [InsertSummary.customInstructions
                         InsertSummary.wordCount].
  rewrite 2 or_null_nonempty
    by first [ apply toString_nonempty
             | apply or_else_nonempty, defaultInstructions_nonempty ].
  reflexivity.
Qed.

(** Every other body is refused with 400 before anything is touched. *)
Lemma post_summaries_generate_cases body :
  (∃ fields tc ci, body = JObject fields ∧ generate_valid fields tc ci) ∨
  (∀ (C : Collaborators) w, ∃ errors,
     @post_summaries_generate C body w =
     (Returned
        (mkResponse 400 (InvalidBody (lit "Invalid request data") errors)),
      w)).
Proof.
  destruct body as [| | | | |xs|fields];
    try (right; intros C w; eexists; reflexivity).
  destruct (own_property fields (lit "transcriptContent")) as [| | | |tc| |]
    eqn:Htc;
    try (right; intros C w;
         unfold post_summaries_generate, try_catch, bind at 1,
           generateSummarySchema_parse;
         rewrite Htc;
         destruct (z_string_optional _ _); eexists; reflexivity).
  destruct tc as [|c tc].
  { right; intros C w.
    unfold post_summaries_generate, try_catch, bind at 1,
      generateSummarySchema_parse.
    rewrite Htc. destruct (z_string_optional _ _); eexists; reflexivity. }
  destruct (own_property fields (lit "customInstructions")) as [| | | |ci| |]
    eqn:Hci;
    try (right; intros C w;
         unfold post_summaries_generate, try_catch, bind at 1,
           generateSummarySchema_parse;
         rewrite Htc, Hci; eexists; reflexivity).
  - left. exists fields, (c :: tc), None. by repeat split.
  - left. exists fields, (c :: tc), (Some ci). by repeat split.
Qed.

(** C5. A generate-summary request that passes validation and carries no
    custom instructions makes exactly one call to the completion service,
    with a single user message whose text starts with the default
    instruction text (followed by a blank line, "Transcript:" and the
    transcript).  Whenever that call returns, the answer is 200 with the new
    summary, which is in the store under its identifier and whose
    [customInstructions] is the default instruction text, not [null]. *)
Theorem generate_without_instructions_uses_default `{Collaborators}
    fields w tc :
  generate_valid fields tc None →
  let prompt :=
    defaultInstructions ++ [LF; LF] ++ lit "Transcript:" ++ [LF] ++ tc in
  ∃ r w',
    post_summaries_generate (JObject fields) w = (Returned r, w') ∧
    groq_calls w' = groq_calls w ++ [completion_request prompt] ∧
    defaultInstructions `prefix_of` prompt ∧
    (∀ completion,
       groq_create (length (groq_calls w)) (completion_request prompt)
         = Some completion →
       ∃ summary,
         r = mkResponse 200 (SummaryBody summary) ∧
         Map_get (Summary.id summary) (summaries (storage w')) = Some summary ∧
         Summary.customInstructions summary = Some defaultInstructions).
Proof.
  intros Hvalid prompt.
  pose proof (post_summaries_generate_valid fields w tc None Hvalid) as Hrun.
  cbv zeta in Hrun. change (generate_prompt None tc) with prompt in Hrun.
  destruct (groq_create _ _) as [completion|] eqn:Hgroq.
  - eexists _, _. split; [exact Hrun|]. split; [reflexivity|].
    split; [by eexists|].
    intros completion' [= <-]. eexists. split; [reflexivity|].
    split; [apply Map_get_set_eq|reflexivity].
  - eexists _, _. split; [exact Hrun|]. split; [reflexivity|].
    split; [by eexists|]. intros completion' [=].
Qed.

Lemma generate_without_instructions_uses_default_witness :
  ∃ summary w',
    @post_summaries_generate Demo.env Demo.generate_body Demo.world0 =
      (Returned (mkResponse 200 (SummaryBody summary)), w') ∧
    (∃ request,
       groq_calls w' = [request] ∧
       defaultInstructions `prefix_of`
         (chat_content <$> messages request) !!! 0%nat) ∧
    Map_get (Summary.id summary) (summaries (storage w')) = Some summary ∧
    Summary.customInstructions summary = Some defaultInstructions.
Proof.
  destruct (@generate_without_instructions_uses_default Demo.env
              [(lit "transcriptContent",
                JString (lit "Alice: let's ship Friday. Bob: agreed."))]
              Demo.world0
              (lit "Alice: let's ship Friday. Bob: agreed."))
    as (r & w' & Hrun & Hcalls & Hprefix & Hdone).
  { split; [reflexivity|]. split; [discriminate|reflexivity]. }
  destruct (Hdone _ eq_refl) as (summary & -> & Hget & Hci).
  exists summary, w'. split; [exact Hrun|].
  split; [|by split].
  eexists. split; [exact Hcalls|]. exact Hprefix.
Defined.

(** ** The create-transcript handler *)

(** C10. The presence check of [POST /api/transcripts] answers 400 exactly
    when [content] is not a string or is the empty string.  A string made
    only of white space, not empty, passes it: the handler trims it, stores
    a transcript whose content is the empty string and answers 200 with
    that transcript. *)
Theorem create_transcript_accepts_blank_content `{Collaborators} body v w :
  destructure body (lit "content") = Some v →
  ∃ r w',
    post_transcripts body w = (Returned r, w') ∧
    (status r = 400%nat ↔ ¬ ∃ s, v = JString s ∧ s ≠ []) ∧
    (∀ s, v = JString s → s ≠ [] → forallb isWhiteSpace s = true →
       ∃ transcript,
         r = mkResponse 200 (TranscriptBody transcript) ∧
         Transcript.content transcript = [] ∧
         Map_get (Transcript.id transcript) (transcripts (storage w'))
           = Some transcript).
Proof.
  intros Hv. unfold post_transcripts, try_catch, bind at 1.
  rewrite Hv. unfold ret at 1.
  destruct v as [| |b|q|s|xs|fs];
    try (cbn [truthy typeof_string negb orb]; rewrite ?orb_true_r;
         unfold res_status_json, ret; eexists _, _;
         split; [reflexivity|]; split;
         [ split; [intros _ (s & [=] & _) | reflexivity]
         | intros s [=] ]).
  destruct s as [|c s].
  - unfold res_status_json, ret. eexists _, _. split; [reflexivity|]. split.
    + split; [intros _ (s & [= <-] & Hs); by apply Hs | reflexivity].
    + intros s [= <-] Hs. by destruct Hs.
  - change (negb (truthy (JString (c :: s))) ||
            negb (typeof_string (JString (c :: s)))) with false.
    cbv iota. unfold bind at 1. rewrite createTranscript_run. cbv zeta.
    unfold res_json, ret. eexists _, _. split; [reflexivity|]. split.
    + split; [intros [=] | intros Hn; destruct Hn; by exists (c :: s)].
    + intros s' [= <-] _ Hblank. eexists. split; [reflexivity|].
      split; [exact (trim_blank _ Hblank) | apply Map_get_set_eq].
Qed.

Lemma create_transcript_accepts_blank_content_witness :
  ∃ transcript w',
    @post_transcripts Demo.env
      (JObject [(lit "content", JString (lit "   "))]) Demo.world0 =
      (Returned (mkResponse 200 (TranscriptBody transcript)), w') ∧
    Transcript.content transcript = [] ∧
    Map_get (Transcript.id transcript) (transcripts (storage w'))
      = Some transcript.
Proof.
  destruct (@create_transcript_accepts_blank_content Demo.env
              (JObject [(lit "content", JString (lit "   "))])
              (JString (lit "   ")) Demo.world0 eq_refl)
    as (r & w' & Hrun & _ & Hblank).
  destruct (Hblank (lit "   ") eq_refl) as (transcript & -> & Hc & Hget);
    [discriminate | reflexivity |].
  by exists transcript, w'.
Defined.

Example create_transcript_rejects_empty :
  @post_transcripts Demo.env (JObject [(lit "content", JString [])])
    Demo.world0 =
  (Returned (mkResponse 400 (MessageBody (lit "Content is required"))),
   Demo.world0).
Proof. reflexivity. Qed.

Example create_transcript_rejects_missing :
  @post_transcripts Demo.env (JObject []) Demo.world0 =
  (Returned (mkResponse 400 (MessageBody (lit "Content is required"))),
   Demo.world0).
Proof. reflexivity. Qed.

Example create_transcript_rejects_number :
  @post_transcripts Demo.env (JObject [(lit "content", JNumber (7 # 1))])
    Demo.world0 =
  (Returned (mkResponse 400 (MessageBody (lit "Content is required"))),
   Demo.world0).
Proof. reflexivity. Qed.

(** ** Word counts *)

Lemma word_count_not_zero content :
  toString (length (split_ws (trim content))) ≠ lit "0".
Proof.
  intros E%toString_zero. pose proof (split_trim_positive content). lia.
Qed.

(** C9. The word count the code computes is never ["0"].  On content that
    is empty or only white space [updateSummary] stores ["1"], because the
    trimmed content splits into one empty piece; and when the text taken
    from the completion is empty (in particular when the completion has no
    choice, no message or no content) the generate handler stores the empty
    content with the word count ["1"]. *)
Theorem word_count_never_zero :
  (∀ id content w summary,
     Map_get id (summaries (storage w)) = Some summary →
     ∃ updated w',
       updateSummary id content w = (Returned (Some updated), w') ∧
       Map_get id (summaries (storage w')) = Some updated ∧
       Summary.wordCount updated ≠ Some (lit "0") ∧
       (forallb isWhiteSpace content = true →
        split_ws (trim content) = [[]] ∧
        Summary.wordCount updated = Some (lit "1"))) ∧
  (∀ (C : Collaborators) fields w tc ci completion,
     generate_valid fields tc ci →
     groq_create (length (groq_calls w))
       (completion_request (generate_prompt ci tc)) = Some completion →
     ∃ summary w',
       @post_summaries_generate C (JObject fields) w =
         (Returned (mkResponse 200 (SummaryBody summary)), w') ∧
       Map_get (Summary.id summary) (summaries (storage w')) = Some summary ∧
       Summary.wordCount summary ≠ Some (lit "0") ∧
       (or_else (first_choice_content completion) [] = [] →
        Summary.content summary = [] ∧
        Summary.wordCount summary = Some (lit "1")) ∧
       (first_choice_content completion = None →
        Summary.content summary = [])).
Proof.
  split.
  - intros id content w summary Hget. eexists _, _.
    split; [by apply updateSummary_found|].
    split; [apply Map_get_set_eq|]. cbn [Summary.wordCount]. split.
    + intros [= E]. by apply (word_count_not_zero content).
    + intros Hblank. by rewrite (trim_blank _ Hblank).
  - intros C fields w tc ci completion Hvalid Hgroq.
    pose proof (post_summaries_generate_valid fields w tc ci Hvalid) as Hrun.
    cbv zeta in Hrun. rewrite Hgroq in Hrun.
    eexists _, _. split; [exact Hrun|].
    split; [apply Map_get_set_eq|]. cbn [Summary.wordCount Summary.content].
    split; [intros [= E]; by apply (word_count_not_zero _ E)|].
    split; [intros ->; by split | by intros ->].
Qed.

Example updateSummary_blank_content :
  ∃ updated w',
    updateSummary (lit "s1") ([0x20; 0x09; LF]) Demo.world1 =
      (Returned (Some updated), w') ∧
    Summary.wordCount updated = Some (lit "1").
Proof.
  eexists _, _. split.
  - apply (updateSummary_found _ _ _ Demo.summary1). reflexivity.
  - reflexivity.
Qed.

Example generate_with_silent_completion :
  ∃ summary w',
    @post_summaries_generate Demo.env_silent Demo.generate_body Demo.world0 =
      (Returned (mkResponse 200 (SummaryBody summary)), w') ∧
    Summary.content summary = [] ∧
    Summary.wordCount summary = Some (lit "1").
Proof. eexists _, _. split; [vm_compute; reflexivity|]. by split. Qed.

(** What [PATCH /api/summaries/:id] did when it answers with a summary. *)
Lemma patch_summaries_summary id body w r w' summary :
  patch_summaries id body w = (Returned r, w') →
  json r = SummaryBody summary →
  ∃ content old,
    destructure body (lit "content") = Some (JString content) ∧
    Map_get id (summaries (storage w)) = Some old ∧
    updateSummary id content w = (Returned (Some summary), w').
Proof.
  unfold patch_summaries, try_catch, bind at 1.
  destruct (destructure body (lit "content")) as [v|];
    [|by intros [= <- <-]].
  unfold ret at 1.
  destruct v as [| |b|q|s|xs|fs];
    try (cbn [truthy typeof_string negb orb]; rewrite ?orb_true_r;
         by intros [= <- <-]).
  destruct s as [|c s]; [by intros [= <- <-]|].
  change (negb (truthy (JString (c :: s))) ||
          negb (typeof_string (JString (c :: s)))) with false.
  cbv iota. unfold bind at 1.
  destruct (Map_get id (summaries (storage w))) as [old|] eqn:Hget.
  - rewrite (updateSummary_found _ _ _ _ Hget). cbv zeta.
    intros [= <- <-] [= <-]. exists (c :: s), old.
    split; [done|]. split; [done|]. by rewrite (updateSummary_found _ _ _ _ Hget).
  - rewrite (updateSummary_missing _ _ _ Hget). by intros [= <- <-].
Qed.

(** C1. Wherever a summary's content is set, the stored [wordCount] is the
    decimal rendering of [trim(content).split(/\s+/).length] for the stored
    content.  A valid generate-summary request whose completion call
    returns is answered 200 with a summary that is added to the store,
    whose content is the text taken from the completion and whose word
    count is computed from that content; and whatever the request and the
    outcome, the handler either leaves the summaries as they were or adds
    one summary with the count computed from its content.  [updateSummary]
    on a stored identifier, and so [PATCH] with a content that is a string
    and not empty, writes the new content with the count computed from
    it, and any run of [PATCH] leaves the summaries as they were or sets
    one such record.  A [wordCount] field in a request body is never read:
    adding one to the body changes neither handler's result.  That length
    is the number of maximal runs of code units that are not white space,
    counted as one when the content has none. *)
Theorem wordCount_recomputed_from_content :
  (∀ (C : Collaborators) fields w tc ci completion,
     generate_valid fields tc ci →
     groq_create (length (groq_calls w))
       (completion_request (generate_prompt ci tc)) = Some completion →
     ∃ summary w',
       @post_summaries_generate C (JObject fields) w =
         (Returned (mkResponse 200 (SummaryBody summary)), w') ∧
       summaries (storage w') =
         Map_set (Summary.id summary) summary (summaries (storage w)) ∧
       Map_get (Summary.id summary) (summaries (storage w')) = Some summary ∧
       Summary.content summary = or_else (first_choice_content completion) [] ∧
       Summary.wordCount summary =
         Some (toString
                 (length (split_ws (trim (Summary.content summary)))))) ∧
  (∀ (C : Collaborators) body w o w',
     @post_summaries_generate C body w = (o, w') →
     summaries (storage w') = summaries (storage w) ∨
     ∃ summary,
       o = Returned (mkResponse 200 (SummaryBody summary)) ∧
       summaries (storage w') =
         Map_set (Summary.id summary) summary (summaries (storage w)) ∧
       Summary.wordCount summary =
         Some (toString
                 (length (split_ws (trim (Summary.content summary)))))) ∧
  (∀ (C : Collaborators) body w r w' summary,
     @post_summaries_generate C body w = (Returned r, w') →
     json r = SummaryBody summary →
     Map_get (Summary.id summary) (summaries (storage w')) = Some summary ∧
     Summary.wordCount summary =
       Some (toString (length (split_ws (trim (Summary.content summary)))))) ∧
  (∀ id content w summary,
     Map_get id (summaries (storage w)) = Some summary →
     ∃ updated w',
       updateSummary id content w = (Returned (Some updated), w') ∧
       Map_get id (summaries (storage w')) = Some updated ∧
       Summary.content updated = content ∧
       Summary.wordCount updated =
         Some (toString (length (split_ws (trim content))))) ∧
  (∀ id body s w old,
     destructure body (lit "content") = Some (JString s) → s ≠ [] →
     Map_get id (summaries (storage w)) = Some old →
     ∃ updated w',
       patch_summaries id body w =
         (Returned (mkResponse 200 (SummaryBody updated)), w') ∧
       summaries (storage w') = Map_set id updated (summaries (storage w)) ∧
       Map_get id (summaries (storage w')) = Some updated ∧
       Summary.content updated = s ∧
       Summary.wordCount updated =
         Some (toString (length (split_ws (trim s))))) ∧
  (∀ id body w o w',
     patch_summaries id body w = (o, w') →
     summaries (storage w') = summaries (storage w) ∨
     ∃ updated,
       o = Returned (mkResponse 200 (SummaryBody updated)) ∧
       summaries (storage w') = Map_set id updated (summaries (storage w)) ∧
       Summary.wordCount updated =
         Some (toString
                 (length (split_ws (trim (Summary.content updated)))))) ∧
  (∀ id body w r w' summary,
     patch_summaries id body w = (Returned r, w') →
     json r = SummaryBody summary →
     Map_get id (summaries (storage w')) = Some summary ∧
     Summary.wordCount summary =
       Some (toString (length (split_ws (trim (Summary.content summary)))))) ∧
  (∀ (C : Collaborators) id fields supplied w,
     @post_summaries_generate C
       (JObject ((lit "wordCount", supplied) :: fields)) w =
     @post_summaries_generate C (JObject fields) w ∧
     patch_summaries id
       (JObject ((lit "wordCount", supplied) :: fields)) w =
     patch_summaries id (JObject fields) w) ∧
  (∀ content,
     length (split_ws (trim content)) = Nat.max 1 (words content)).
Proof.
  repeat apply conj; [| | | | | | | |exact split_trim_length].
  - intros C fields w tc ci completion Hvalid Hgroq.
    rewrite (post_summaries_generate_valid fields w tc ci Hvalid).
    cbv zeta. rewrite Hgroq. eexists _, _. split; [reflexivity|]. cbn.
    split; [done|]. split; [apply Map_get_set_eq|]. by split.
  - intros C body w o w' Hrun.
    destruct (post_summaries_generate_cases body)
      as [(fields & tc & ci & -> & Hvalid)|Hinvalid].
    + rewrite (post_summaries_generate_valid fields w tc ci Hvalid) in Hrun.
      cbv zeta in Hrun.
      destruct (groq_create _ _) as [completion|];
        injection Hrun as <- <-; [right|by left].
      eexists. split; [reflexivity|]. by split.
    + destruct (Hinvalid C w) as [errors Herr]. rewrite Herr in Hrun.
      injection Hrun as <- <-. by left.
  - intros C body w r w' summary Hrun Hjson.
    destruct (post_summaries_generate_cases body)
      as [(fields & tc & ci & -> & Hvalid)|Hinvalid].
    + rewrite (post_summaries_generate_valid fields w tc ci Hvalid) in Hrun.
      cbv zeta in Hrun.
      destruct (groq_create _ _) as [completion|].
      * injection Hrun as <- <-. injection Hjson as <-.
        split; [apply Map_get_set_eq|reflexivity].
      * injection Hrun as <- <-. discriminate Hjson.
    + destruct (Hinvalid C w) as [errors Herr]. rewrite Herr in Hrun.
      injection Hrun as <- <-. discriminate Hjson.
  - intros id content w summary Hget. eexists _, _.
    split; [by apply updateSummary_found|].
    split; [apply Map_get_set_eq|]. by split.
  - intros id body s w old Hd Hs Hget.
    unfold patch_summaries, try_catch, bind at 1.
    rewrite Hd. unfold ret at 1. destruct s as [|c s]; [done|].
    change (negb (truthy (JString (c :: s))) ||
            negb (typeof_string (JString (c :: s)))) with false.
    cbv iota. unfold bind at 1.
    rewrite (updateSummary_found _ _ _ _ Hget). cbv zeta.
    eexists _, _. split; [reflexivity|]. cbn.
    split; [done|]. split; [apply Map_get_set_eq|]. by split.
  - intros id body w o w'.
    unfold patch_summaries, try_catch, bind at 1.
    destruct (destructure body (lit "content")) as [v|];
      [|intros [= <- <-]; by left].
    unfold ret at 1.
    destruct v as [| |b|q|s|xs|fs];
      try (cbn [truthy typeof_string negb orb]; rewrite ?orb_true_r;
           intros [= <- <-]; by left).
    destruct s as [|c s]; [intros [= <- <-]; by left|].
    change (negb (truthy (JString (c :: s))) ||
            negb (typeof_string (JString (c :: s)))) with false.
    cbv iota. unfold bind at 1.
    destruct (Map_get id (summaries (storage w))) as [old|] eqn:Hget.
    + rewrite (updateSummary_found _ _ _ _ Hget). cbv zeta.
      intros [= <- <-]. right. eexists. split; [reflexivity|]. by split.
    + rewrite (updateSummary_missing _ _ _ Hget).
      intros [= <- <-]. by left.
  - intros id body w r w' summary Hrun Hjson.
    destruct (patch_summaries_summary _ _ _ _ _ _ Hrun Hjson)
      as (content & old & _ & Hget & Hupd).
    rewrite (updateSummary_found _ _ _ _ Hget) in Hupd. cbv zeta in Hupd.
    injection Hupd as <- <-.
    split; [apply Map_get_set_eq|reflexivity].
  - intros C id fields supplied w. split.
    + unfold post_summaries_generate, generateSummarySchema_parse.
      rewrite !own_property_cons.
      rewrite !decide_False by (by vm_compute). reflexivity.
    + unfold patch_summaries, destructure.
      rewrite own_property_cons.
      rewrite decide_False by (by vm_compute). reflexivity.
Qed.

Lemma wordCount_recomputed_from_content_witness :
  (∃ summary w',
     @post_summaries_generate Demo.env
       (JObject [(lit "transcriptContent", JString (lit "Bob: hello"));
                 (lit "wordCount", JString (lit "999"))]) Demo.world1 =
       (Returned (mkResponse 200 (SummaryBody summary)), w') ∧
     summaries (storage w') =
       Map_set (Summary.id summary) summary (summaries (storage Demo.world1)) ∧
     Summary.content summary = Demo.completion_text ∧
     Summary.wordCount summary = Some (lit "5")) ∧
  (∃ updated w',
     patch_summaries (lit "s2")
       (JObject [(lit "content", JString (lit " one  two three "));
                 (lit "wordCount", JString (lit "999"))]) Demo.world1 =
       (Returned (mkResponse 200 (SummaryBody updated)), w') ∧
     Map_get (lit "s2") (summaries (storage w')) = Some updated ∧
     Summary.content updated = lit " one  two three " ∧
     Summary.wordCount updated = Some (lit "3")).
Proof.
  destruct wordCount_recomputed_from_content
    as (Hgen & _ & _ & _ & Hpatch & _).
  split.
  - destruct (Hgen Demo.env
                [(lit "transcriptContent", JString (lit "Bob: hello"));
                 (lit "wordCount", JString (lit "999"))]
                Demo.world1 (lit "Bob: hello") None
                (mkChatCompletion
                   [mkChoice
                      (Some (mkChoiceMessage (Some Demo.completion_text)))]))
      as (summary & w' & Hrun & Hstore & _ & Hcontent & Hcount).
    { split; [reflexivity|]. split; [discriminate|reflexivity]. }
    { reflexivity. }
    exists summary, w'. split; [exact Hrun|]. split; [exact Hstore|].
    split; [exact Hcontent|]. rewrite Hcount, Hcontent. reflexivity.
  - destruct (Hpatch (lit "s2")
                (JObject [(lit "content", JString (lit " one  two three "));
                          (lit "wordCount", JString (lit "999"))])
                (lit " one  two three ") Demo.world1 Demo.summary2)
      as (updated & w' & Hrun & _ & Hget & Hcontent & Hcount);
      [reflexivity | discriminate | reflexivity |].
    exists updated, w'. split; [exact Hrun|]. split; [exact Hget|].
    split; [exact Hcontent|]. rewrite Hcount. reflexivity.
Defined.

Example generate_ignores_supplied_wordCount :
  ∃ summary w',
    @post_summaries_generate Demo.env
      (JObject [(lit "transcriptContent", JString (lit "Bob: hello"));
                (lit "wordCount", JString (lit "999"))]) Demo.world0 =
      (Returned (mkResponse 200 (SummaryBody summary)), w') ∧
    Summary.content summary = Demo.completion_text ∧
    Summary.wordCount summary = Some (lit "5").
Proof. eexists _, _. split; [vm_compute; reflexivity|]. by split. Qed.

(** * Further properties of the store and of the handlers *)

(** ** More on the insertion-ordered map *)

Lemma Map_get_None_keys {V} k (m : JsMap V) :
  Map_get k m = None ↔ k ∉ Map_keys m.
Proof.
  unfold Map_keys. induction m as [|[k' v'] m IH]; simpl.
  - split; [intros _; apply not_elem_of_nil | done].
  - rewrite not_elem_of_cons. destruct (decide (k' = k)) as [->|Hne].
    + split; [done | by intros [? _]].
    + rewrite IH. split; [by intros ?; split | by intros [_ ?]].
Qed.

Lemma Map_keys_set_fresh {V} k (v : V) m :
  Map_get k m = None → Map_keys (Map_set k v m) = Map_keys m ++ [k].
Proof.
  intros Hm. rewrite Map_set_fresh by done.
  unfold Map_keys. by rewrite fmap_app.
Qed.

Lemma Map_keys_set_prefix {V} k (v : V) m :
  Map_keys m `prefix_of` Map_keys (Map_set k v m).
Proof.
  destruct (Map_get k m) as [v0|] eqn:Hm.
  - rewrite Map_keys_set_present by (by rewrite Hm). done.
  - rewrite Map_keys_set_fresh by done. by apply prefix_app_r.
Qed.

Lemma Map_set_set {V} k (v1 v2 : V) m :
  Map_set k v2 (Map_set k v1 m) = Map_set k v2 m.
Proof.
  induction m as [|[k' v'] m IH]; simpl.
  - by rewrite decide_True.
  - destruct (decide (k' = k)) as [->|Hne]; simpl.
    + by rewrite decide_True.
    + rewrite decide_False by done. by rewrite IH.
Qed.

Lemma Map_set_entries {V} (f : V → jsstring) k (v : V) m :
  Forall (λ kv, f kv.2 = kv.1) m → f v = k →
  Forall (λ kv, f kv.2 = kv.1) (Map_set k v m).
Proof.
  intros Hm Hv. induction Hm as [|[k' v'] m Hkv Hm IH]; simpl.
  - by repeat constructor.
  - destruct (decide (k' = k)); constructor; auto.
Qed.

Lemma keyed_by_set {V} (f : V → jsstring) k (v : V) m :
  keyed_by f m → f v = k → keyed_by f (Map_set k v m).
Proof.
  intros [Hnd Hall] Hv. split; [|by apply Map_set_entries].
  destruct (Map_get k m) as [v0|] eqn:Hm.
  - rewrite Map_keys_set_present by (by rewrite Hm). done.
  - rewrite Map_keys_set_fresh by done.
    apply NoDup_app. split; [done|]. split; [|apply NoDup_singleton].
    intros x Hx ->%list_elem_of_singleton.
    by apply Map_get_None_keys in Hm.
Qed.

Lemma keyed_by_get {V} (f : V → jsstring) k (v : V) m :
  keyed_by f m → Map_get k m = Some v → f v = k.
Proof.
  intros [_ Hall]. induction Hall as [|[k' v'] m Hkv Hall IH]; simpl; [done|].
  destruct (decide (k' = k)) as [->|Hne]; [|done]. by intros [= <-].
Qed.

(** ** Runs and relations *)

Section Respects.
Context (R : relation World) `{!PreOrder R}.

Lemma respects_ret {A} (a : A) : respects R (ret a).
Proof. intros w o w' [= <- <-]. reflexivity. Qed.

Lemma respects_throw {A} e : respects R (@throw A e).
Proof. intros w o w' [= <- <-]. reflexivity. Qed.

Lemma respects_bind {A B} (m : M A) (k : A → M B) :
  respects R m → (∀ a, respects R (k a)) → respects R (bind m k).
Proof.
  intros Hm Hk w o w' E. unfold bind in E.
  destruct (m w) as [[a|e] w1] eqn:Em.
  - transitivity w1; [by eapply Hm | by eapply Hk].
  - injection E as <- <-. by eapply Hm.
Qed.

Lemma respects_try_catch {A} (m : M A) (h : Exn → M A) :
  respects R m → (∀ e, respects R (h e)) → respects R (try_catch m h).
Proof.
  intros Hm Hh w o w' E. unfold try_catch in E.
  destruct (m w) as [[a|e] w1] eqn:Em.
  - injection E as <- <-. by eapply Hm.
  - transitivity w1; [by eapply Hm | by eapply Hh].
Qed.

Lemma respects_Array_map {A B} (f : A → M B) xs :
  (∀ x, respects R (f x)) → respects R (Array_map f xs).
Proof.
  intros Hf. induction xs as [|x xs IH]; simpl.
  - apply respects_ret.
  - apply respects_bind; [apply Hf|]. intros y.
    apply respects_bind; [apply IH|]. intros ys. apply respects_ret.
Qed.

Lemma respects_Promise_all promises : respects R (Promise_all promises).
Proof.
  unfold Promise_all. destruct (forallb _ _);
    [apply respects_ret | apply respects_throw].
Qed.

Lemma respects_get_storage : respects R get_storage.
Proof. intros w o w' [= <- <-]. reflexivity. Qed.

Lemma respects_generateSummarySchema_parse `{Collaborators} body :
  respects R (generateSummarySchema_parse body).
Proof.
  unfold generateSummarySchema_parse.
  repeat case_match; first [apply respects_ret | apply respects_throw].
Qed.

Lemma respects_sendEmailSchema_parse `{Collaborators} body :
  respects R (sendEmailSchema_parse body).
Proof.
  unfold sendEmailSchema_parse.
  repeat case_match; first [apply respects_ret | apply respects_throw].
Qed.

End Respects.

#[local] Instance keeps_store_ok_preorder : PreOrder keeps_store_ok.
Proof.
  split; [intros w Hw; exact Hw|].
  intros w1 w2 w3 H1 H2 Hw. apply H2, H1, Hw.
Qed.

#[local] Instance grows_preorder : PreOrder grows.
Proof.
  split.
  - intros w. unfold grows. by repeat split.
  - intros w1 w2 w3 (?&?&?&?&?&?&?) (?&?&?&?&?&?&?).
    unfold grows. repeat split; try (by etrans); lia.
Qed.

#[local] Instance email_frame_preorder : PreOrder email_frame.
Proof.
  split; [intros w; unfold email_frame; by repeat split|].
  intros w1 w2 w3 (?&?&?) (?&?&?). repeat split; congruence.
Qed.

#[local] Instance generate_frame_preorder : PreOrder generate_frame.
Proof.
  split; [intros w; unfold generate_frame; by repeat split|].
  intros w1 w2 w3 (?&?) (?&?). repeat split; congruence.
Qed.

#[local] Instance transcript_frame_preorder : PreOrder transcript_frame.
Proof.
  split; [intros w; unfold transcript_frame; by repeat split|].
  intros w1 w2 w3 (?&?&?&?) (?&?&?&?). repeat split; congruence.
Qed.

#[local] Instance patch_frame_preorder : PreOrder patch_frame.
Proof.
  split; [intros w; unfold patch_frame; by repeat split|].
  intros w1 w2 w3 (?&?&?&?&?&?&?) (?&?&?&?&?&?&?). repeat split; congruence.
Qed.

Lemma createEmailShare_run `{Collaborators} insertEmailShare w :
  let id := randomUUID_nth (uuid_draws w) in
  let emailShare :=
    {| EmailShare.id := id;
       EmailShare.summaryId := InsertEmailShare.summaryId insertEmailShare;
       EmailShare.recipients := InsertEmailShare.recipients insertEmailShare;
       EmailShare.subject := InsertEmailShare.subject insertEmailShare;
       EmailShare.message :=
         or_null (InsertEmailShare.message insertEmailShare);
       EmailShare.sentAt := Date_nth (date_reads w) |} in
  createEmailShare insertEmailShare w =
  (Returned emailShare,
   mkWorld (mkStorage (transcripts (storage w)) (summaries (storage w))
                      (Map_set id emailShare (emailShares (storage w))))
           (S (uuid_draws w)) (S (date_reads w))
           (groq_calls w) (mail_calls w)).
Proof. reflexivity. Qed.

(** Opens a run of one of the operations the handlers are made of. *)
Ltac open_run E :=
  first
    [ rewrite createTranscript_run in E
    | rewrite createSummary_run in E
    | rewrite createEmailShare_run in E
    | progress unfold groq_chat_completions_create in E;
      destruct (groq_create _ _)
    | progress unfold transporter_sendMail in E
    | match type of E with
      | updateSummary ?id _ ?w = _ =>
          let Hget := fresh "Hget" in
          destruct (Map_get id (summaries (storage w))) eqn:Hget;
          [ rewrite (updateSummary_found _ _ _ _ Hget) in E
          | rewrite (updateSummary_missing _ _ _ Hget) in E ]
      end ];
  cbv zeta in E; simplify_eq.

Create HintDb respects discriminated.

(** *** The operations keep the store keyed by identifiers *)

Lemma keeps_store_ok_createTranscript `{Collaborators} ins :
  respects keeps_store_ok (createTranscript ins).
Proof.
  intros w o w' E. open_run E. intros (Ht & Hs & He).
  split; [|done]. by apply keyed_by_set.
Qed.

Lemma keeps_store_ok_createSummary `{Collaborators} ins :
  respects keeps_store_ok (createSummary ins).
Proof.
  intros w o w' E. open_run E. intros (Ht & Hs & He).
  split; [done|]. split; [|done]. by apply keyed_by_set.
Qed.

Lemma keeps_store_ok_createEmailShare `{Collaborators} ins :
  respects keeps_store_ok (createEmailShare ins).
Proof.
  intros w o w' E. open_run E. intros (Ht & Hs & He).
  split; [done|]. split; [done|]. by apply keyed_by_set.
Qed.

Lemma keeps_store_ok_updateSummary id content :
  respects keeps_store_ok (updateSummary id content).
Proof.
  intros w o w' E. open_run E; [|intros Hok; exact Hok].
  intros (Ht & Hs & He).
  split; [exact Ht|]. split; [|exact He].
  apply keyed_by_set; [exact Hs|].
  exact (keyed_by_get Summary.id _ _ _ Hs Hget).
Qed.

Lemma keeps_store_ok_groq `{Collaborators} request :
  respects keeps_store_ok (groq_chat_completions_create request).
Proof. intros w o w' E. open_run E; intros Hok; exact Hok. Qed.

Lemma keeps_store_ok_sendMail `{Collaborators} options :
  respects keeps_store_ok (transporter_sendMail options).
Proof. intros w o w' E. open_run E. intros Hok; exact Hok. Qed.

#[local] Hint Resolve keeps_store_ok_createTranscript
  keeps_store_ok_createSummary keeps_store_ok_createEmailShare
  keeps_store_ok_updateSummary keeps_store_ok_groq keeps_store_ok_sendMail
  : respects.

(** *** The operations only add *)

Ltac solve_grows :=
  unfold grows; simpl;
  repeat split;
  first [ reflexivity | lia | apply Map_keys_set_prefix
        | by apply prefix_app_r ].

Lemma grows_createTranscript `{Collaborators} ins :
  respects grows (createTranscript ins).
Proof. intros w o w' E. open_run E. solve_grows. Qed.

Lemma grows_createSummary `{Collaborators} ins :
  respects grows (createSummary ins).
Proof. intros w o w' E. open_run E. solve_grows. Qed.

Lemma grows_createEmailShare `{Collaborators} ins :
  respects grows (createEmailShare ins).
Proof. intros w o w' E. open_run E. solve_grows. Qed.

Lemma grows_updateSummary id content :
  respects grows (updateSummary id content).
Proof. intros w o w' E. open_run E; solve_grows. Qed.

Lemma grows_groq `{Collaborators} request :
  respects grows (groq_chat_completions_create request).
Proof. intros w o w' E. open_run E; solve_grows. Qed.

Lemma grows_sendMail `{Collaborators} options :
  respects grows (transporter_sendMail options).
Proof. intros w o w' E. open_run E. solve_grows. Qed.

#[local] Hint Resolve grows_createTranscript grows_createSummary
  grows_createEmailShare grows_updateSummary grows_groq grows_sendMail
  : respects.

(** *** What the operations leave alone *)

Lemma email_frame_sendMail `{Collaborators} options :
  respects email_frame (transporter_sendMail options).
Proof. intros w o w' E. open_run E. by repeat split. Qed.

Lemma email_frame_createEmailShare `{Collaborators} ins :
  respects email_frame (createEmailShare ins).
Proof. intros w o w' E. open_run E. by repeat split. Qed.

Lemma generate_frame_createTranscript `{Collaborators} ins :
  respects generate_frame (createTranscript ins).
Proof. intros w o w' E. open_run E. by repeat split. Qed.

Lemma generate_frame_createSummary `{Collaborators} ins :
  respects generate_frame (createSummary ins).
Proof. intros w o w' E. open_run E. by repeat split. Qed.

Lemma generate_frame_groq `{Collaborators} request :
  respects generate_frame (groq_chat_completions_create request).
Proof. intros w o w' E. open_run E; by repeat split. Qed.

Lemma transcript_frame_createTranscript `{Collaborators} ins :
  respects transcript_frame (createTranscript ins).
Proof. intros w o w' E. open_run E. by repeat split. Qed.

Lemma patch_frame_updateSummary id content :
  respects patch_frame (updateSummary id content).
Proof.
  intros w o w' E. open_run E; [|by repeat split].
  unfold patch_frame; simpl. repeat split.
  apply Map_keys_set_present. by rewrite Hget.
Qed.

#[local] Hint Resolve email_frame_sendMail email_frame_createEmailShare
  generate_frame_createTranscript generate_frame_createSummary
  generate_frame_groq transcript_frame_createTranscript
  patch_frame_updateSummary : respects.

(** Takes a handler apart down to the operations it runs. *)
Ltac respects_handler :=
  repeat first
    [ solve [auto with respects]
    | apply respects_try_catch; [typeclasses eauto| |intros ?]
    | apply respects_bind; [typeclasses eauto| |intros ?]
    | apply respects_ret; typeclasses eauto
    | apply respects_throw; typeclasses eauto
    | apply respects_Promise_all; typeclasses eauto
    | apply respects_get_storage; typeclasses eauto
    | apply respects_generateSummarySchema_parse; typeclasses eauto
    | apply respects_sendEmailSchema_parse; typeclasses eauto
    | apply respects_Array_map; [typeclasses eauto|intros ?]
    | progress unfold res_json, res_status_json, getSummary
    | progress cbv zeta
    | match goal with
      | |- respects _ (match ?x with _ => _ end) => destruct x
      | |- respects _ (if ?b then _ else _) => destruct b
      end ].

(** ** Invariants of the running server *)

Lemma handle_keeps_store_ok `{Collaborators} decode request :
  respects keeps_store_ok (handle decode request).
Proof.
  destruct request; unfold handle, post_transcripts_upload, post_transcripts,
    post_summaries_generate, patch_summaries, get_summaries,
    post_summaries_email; respects_handler.
Qed.

Lemma handle_grows `{Collaborators} decode request :
  respects grows (handle decode request).
Proof.
  destruct request; unfold handle, post_transcripts_upload, post_transcripts,
    post_summaries_generate, patch_summaries, get_summaries,
    post_summaries_email; respects_handler.
Qed.

Lemma serve_respects `{Collaborators} (R : relation World) `{!PreOrder R}
    decode :
  (∀ request, respects R (handle decode request)) →
  ∀ requests w, R w (serve decode requests w).
Proof.
  intros Hstep requests. induction requests as [|request requests IH];
    intros w; simpl; [reflexivity|].
  transitivity (handle decode request w).2; [|apply IH].
  destruct (handle decode request w) as [o w'] eqn:E. by eapply Hstep.
Qed.

Lemma store_ok_new : store_ok MemStorage_new.
Proof.
  repeat split; first [apply NoDup_nil_2 | apply Forall_nil_2].
Qed.

(** X1. Whatever requests the server has handled since it started, each
    collection of the store is keyed by the identifiers of its records and
    holds each key once; so a record read by identifier carries that
    identifier. *)
Theorem served_store_keyed_by_ids `{Collaborators} decode requests :
  let st := storage (serve decode requests World_new) in
  store_ok st ∧
  (∀ id t, Map_get id (transcripts st) = Some t → Transcript.id t = id) ∧
  (∀ id s, Map_get id (summaries st) = Some s → Summary.id s = id) ∧
  (∀ id e, Map_get id (emailShares st) = Some e → EmailShare.id e = id).
Proof.
  intros st.
  assert (store_ok st) as Hok.
  { apply (serve_respects keeps_store_ok decode
             (handle_keeps_store_ok decode) requests World_new).
    apply store_ok_new. }
  split; [exact Hok|]. destruct Hok as (Ht & Hs & He).
  repeat split; intros id x Hget; by eapply keyed_by_get.
Qed.

(** X2. No request removes or reorders anything: after any handler run the
    keys of the three collections and the two call logs are the old ones
    with new entries at the end, and the counters have not gone back; the
    same holds over any sequence of requests. *)
Theorem handlers_only_add `{Collaborators} decode :
  (∀ request w o w', handle decode request w = (o, w') → grows w w') ∧
  (∀ requests w, grows w (serve decode requests w)).
Proof.
  split.
  - intros request w o w' E. by eapply handle_grows.
  - apply serve_respects; [apply _|]. apply handle_grows.
Qed.

(** ** What each route leaves alone *)

(** X3. The send-email route never changes a transcript or a summary and
    never calls the completion service, whatever the request and whether
    it succeeds or not. *)
Theorem send_email_leaves_summaries_alone `{Collaborators} body w o w' :
  post_summaries_email body w = (o, w') →
  transcripts (storage w') = transcripts (storage w) ∧
  summaries (storage w') = summaries (storage w) ∧
  groq_calls w' = groq_calls w.
Proof.
  revert w o w'. change (respects email_frame (post_summaries_email body)).
  unfold post_summaries_email. respects_handler.
Qed.

Lemma send_email_leaves_summaries_alone_witness :
  let run :=
    @post_summaries_email Demo.env
      (Demo.email_body [JString (lit "a@x.org")]) Demo.world1 in
  transcripts (storage run.2) = transcripts (storage Demo.world1) ∧
  summaries (storage run.2) = summaries (storage Demo.world1) ∧
  groq_calls run.2 = groq_calls Demo.world1.
Proof.
  intros run.
  apply (@send_email_leaves_summaries_alone Demo.env
           (Demo.email_body [JString (lit "a@x.org")]) Demo.world1
           run.1 run.2).
  apply surjective_pairing.
Defined.

(** X4. The generate-summary route never sends mail and never records an
    email share. *)
Theorem generate_leaves_mail_alone `{Collaborators} body w o w' :
  post_summaries_generate body w = (o, w') →
  emailShares (storage w') = emailShares (storage w) ∧
  mail_calls w' = mail_calls w.
Proof.
  revert w o w'.
  change (respects generate_frame (post_summaries_generate body)).
  unfold post_summaries_generate. respects_handler.
Qed.

Lemma generate_leaves_mail_alone_witness :
  let run :=
    @post_summaries_generate Demo.env Demo.generate_body Demo.world1 in
  emailShares (storage run.2) = emailShares (storage Demo.world1) ∧
  mail_calls run.2 = mail_calls Demo.world1.
Proof.
  intros run.
  apply (@generate_leaves_mail_alone Demo.env Demo.generate_body
           Demo.world1 run.1 run.2).
  apply surjective_pairing.
Defined.

(** X5. The two routes that create a transcript (from text and from an
    uploaded file) change nothing but the transcripts: summaries, email
    shares and both call logs are as before. *)
Theorem transcript_routes_leave_rest_alone `{Collaborators} decode
    request w o w' :
  (∃ body, request = PostTranscripts body) ∨
  (∃ file, request = PostTranscriptsUpload file) →
  handle decode request w = (o, w') →
  summaries (storage w') = summaries (storage w) ∧
  emailShares (storage w') = emailShares (storage w) ∧
  groq_calls w' = groq_calls w ∧
  mail_calls w' = mail_calls w.
Proof.
  intros Hreq. revert w o w'.
  change (respects transcript_frame (handle decode request)).
  destruct Hreq as [[body ->]|[file ->]];
    unfold handle, post_transcripts, post_transcripts_upload;
    respects_handler.
Qed.

Lemma transcript_routes_leave_rest_alone_witness :
  let run :=
    @handle Demo.env DemoDown.ascii_decode
      (PostTranscriptsUpload (Some DemoDown.notes_file)) Demo.world1 in
  summaries (storage run.2) = summaries (storage Demo.world1) ∧
  emailShares (storage run.2) = emailShares (storage Demo.world1) ∧
  groq_calls run.2 = groq_calls Demo.world1 ∧
  mail_calls run.2 = mail_calls Demo.world1.
Proof.
  intros run.
  apply (@transcript_routes_leave_rest_alone Demo.env DemoDown.ascii_decode
           (PostTranscriptsUpload (Some DemoDown.notes_file))
           Demo.world1 run.1 run.2).
  - right. by eexists.
  - apply surjective_pairing.
Defined.

(** X6. The update route changes the summaries only, and there only
    values: transcripts, email shares, the keys of the summaries and their
    order, the counters and both call logs are as before; no identifier or
    time stamp is drawn. *)
Theorem patch_leaves_rest_alone id body w o w' :
  patch_summaries id body w = (o, w') →
  transcripts (storage w') = transcripts (storage w) ∧
  emailShares (storage w') = emailShares (storage w) ∧
  Map_keys (summaries (storage w')) = Map_keys (summaries (storage w)) ∧
  uuid_draws w' = uuid_draws w ∧
  date_reads w' = date_reads w ∧
  groq_calls w' = groq_calls w ∧
  mail_calls w' = mail_calls w.
Proof.
  revert w o w'. change (respects patch_frame (patch_summaries id body)).
  unfold patch_summaries. respects_handler.
Qed.

Lemma patch_leaves_rest_alone_witness :
  let run :=
    patch_summaries (lit "s2")
      (JObject [(lit "content", JString (lit "new text"))]) Demo.world1 in
  transcripts (storage run.2) = transcripts (storage Demo.world1) ∧
  emailShares (storage run.2) = emailShares (storage Demo.world1) ∧
  Map_keys (summaries (storage run.2)) =
    Map_keys (summaries (storage Demo.world1)) ∧
  uuid_draws run.2 = uuid_draws Demo.world1 ∧
  date_reads run.2 = date_reads Demo.world1 ∧
  groq_calls run.2 = groq_calls Demo.world1 ∧
  mail_calls run.2 = mail_calls Demo.world1.
Proof.
  intros run.
  apply (patch_leaves_rest_alone (lit "s2")
           (JObject [(lit "content", JString (lit "new text"))])
           Demo.world1 run.1 run.2).
  apply surjective_pairing.
Defined.

(** ** Validation of a send-email request *)

Lemma z_string_min1_inr `{Collaborators} message path v s :
  z_string_min1 message path v = inr s ↔ v = JString s ∧ s ≠ [].
Proof.
  unfold z_string_min1. destruct v as [| | | |s'| |]; try (split; [done|]);
    try (by intros [[=] _]).
  destruct s' as [|c s']; simpl.
  - split; [done|]. by intros [[= <-] ?].
  - split; [by intros [= <-] | by intros [[= <-] _]].
Qed.

Lemma z_string_optional_inr `{Collaborators} path v o :
  z_string_optional path v = inr o ↔
  v = match o with Some m => JString m | None => JUndefined end.
Proof.
  unfold z_string_optional. destruct v, o; split; intros E; by simplify_eq.
Qed.

Lemma JString_fmap_inj (a b : list jsstring) :
  JString <$> a = JString <$> b → a = b.
Proof.
  revert b. induction a as [|x a IH]; intros [|y b] E; simplify_eq/=;
    [done|]. f_equal. by apply IH.
Qed.

Lemma z_elements_email_inr `{Collaborators} message path i xs rs :
  z_elements (z_string_email message) path i xs = inr rs ↔
  xs = JString <$> rs ∧ Forall (λ r, zod_isEmail r = true) rs.
Proof.
  revert i rs. induction xs as [|x xs IH]; intros i rs; simpl.
  - split.
    + intros [= <-]. by split.
    + intros [E _]. by destruct rs.
  - unfold z_string_email at 1.
    destruct x as [| | | |s| |];
      try (split; [done | intros [E _]; by destruct rs]).
    destruct (zod_isEmail s) eqn:Hs.
    + destruct (z_elements _ path (S i) xs) as [e|rest] eqn:Hrest.
      * split; [done|]. intros [E Hall]. destruct rs as [|r rs]; [done|].
        simplify_eq/=. apply Forall_cons in Hall as [_ Hall].
        assert (z_elements (z_string_email message) path (S i)
                  (JString <$> rs) = inr rs) as Hok
          by (apply IH; by split).
        by rewrite Hok in Hrest.
      * apply IH in Hrest as [-> Hall]. split.
        -- intros [= <-]. split; [done|]. by constructor.
        -- intros [E Hall']. destruct rs as [|r rs]; [done|].
           simplify_eq/=. f_equal. f_equal.
           by apply JString_fmap_inj.
    + split; [done|]. intros [E Hall]. destruct rs as [|r rs]; [done|].
      simplify_eq/=. apply Forall_cons in Hall as [Hr _]. congruence.
Qed.

Lemma z_array_email_min1_inr `{Collaborators} m1 m2 path v rs :
  z_array_email_min1 m1 m2 path v = inr rs ↔
  v = JArray (JString <$> rs) ∧ rs ≠ [] ∧
  Forall (λ r, zod_isEmail r = true) rs.
Proof.
  unfold z_array_email_min1.
  destruct v as [| | | | |xs|]; try (split; [done | by intros [[=] _]]).
  destruct xs as [|x xs].
  - simpl. split; [done|]. intros (E & Hne & _). by destruct rs.
  - cbn [length Nat.ltb Nat.leb].
    destruct (z_elements (z_string_email m1) path 0 (x :: xs))
      as [e|rs'] eqn:Hel.
    + split; [done|]. intros (E & _ & Hall). simplify_eq.
      assert (z_elements (z_string_email m1) path 0 (JString <$> rs)
              = inr rs) as Hok by (apply z_elements_email_inr; by split).
      rewrite E in Hel. by rewrite Hok in Hel.
    + apply z_elements_email_inr in Hel as [Hxs Hall]. split.
      * intros [= <-]. split; [by rewrite Hxs|]. split; [|done].
        by destruct rs'.
      * intros (E & _ & _). simplify_eq. f_equal.
        apply JString_fmap_inj. congruence.
Qed.

Lemma sendEmailSchema_parse_valid `{Collaborators} body w request :
  sendEmailSchema_parse body w = (Returned request, w) ↔
  ∃ fields, body = JObject fields ∧ send_email_valid fields request.
Proof.
  split.
  - destruct body as [| | | | | |fields]; try done.
    unfold sendEmailSchema_parse.
    destruct (z_string_min1 _ _ (own_property fields (lit "summaryId")))
      as [?|summaryId] eqn:H1;
      destruct (z_array_email_min1 _ _ _
                  (own_property fields (lit "recipients")))
        as [?|recipients] eqn:H2;
      destruct (z_string_min1 _ _ (own_property fields (lit "subject")))
        as [?|subject] eqn:H3;
      destruct (z_string_optional _ (own_property fields (lit "message")))
        as [?|message] eqn:H4; try done.
    intros [= <-]. exists fields. split; [done|].
    apply z_string_min1_inr in H1 as [? ?].
    apply z_array_email_min1_inr in H2 as (? & ? & ?).
    apply z_string_min1_inr in H3 as [? ?].
    apply z_string_optional_inr in H4.
    by repeat split.
  - intros (fields & -> & H1 & H1' & H2 & H2' & H2'' & H3 & H3' & H4).
    unfold sendEmailSchema_parse.
    rewrite (proj2 (z_string_min1_inr _ _ _ (req_summaryId request)))
      by done.
    rewrite (proj2 (z_array_email_min1_inr _ _ _ _ (req_recipients request)))
      by done.
    rewrite (proj2 (z_string_min1_inr _ _ _ (req_subject request))) by done.
    rewrite (proj2 (z_string_optional_inr _ _ (req_message request)))
      by done.
    by destruct request.
Qed.

(** X7. [sendEmailSchema] accepts exactly the objects whose [summaryId] and
    [subject] are strings that are not empty, whose [recipients] is an
    array, not empty, of strings that all pass the email check, and whose
    [message] is missing or a string; the request it yields carries those
    values unchanged.  So [null] for [message], a recipient that is not a
    string, or a body that is not an object are all refused. *)
Theorem sendEmailSchema_accepts_exactly `{Collaborators} body w request :
  sendEmailSchema_parse body w = (Returned request, w) ↔
  ∃ fields, body = JObject fields ∧ send_email_valid fields request.
Proof. apply sendEmailSchema_parse_valid. Qed.

Example sendEmailSchema_refuses_null_message :
  ∃ errors,
    @sendEmailSchema_parse Demo.env
      (JObject [(lit "summaryId", JString (lit "s1"));
                (lit "recipients", JArray [JString (lit "a@x.org")]);
                (lit "subject", JString (lit "Notes"));
                (lit "message", JNull)]) Demo.world1 =
    (Thrown (ZodError errors), Demo.world1) ∧
    issue_path <$> errors = [[Key (lit "message")]].
Proof. eexists. split; reflexivity. Qed.

Example sendEmailSchema_reports_each_bad_recipient :
  ∃ errors,
    @sendEmailSchema_parse Demo.env
      (Demo.email_body
         [JString (lit "nobody"); JString (lit "a@x.org"); JNumber (3 # 1)])
      Demo.world1 =
    (Thrown (ZodError errors), Demo.world1) ∧
    issue_path <$> errors =
      [[Key (lit "recipients"); Index 0]; [Key (lit "recipients"); Index 2]].
Proof. eexists. split; reflexivity. Qed.

(** ** The runs of the send-email handler *)

Lemma or_null_or_null x : or_null (or_null x) = or_null x.
Proof.
  destruct x as [s|]; [|done]. simpl.
  destruct (bool_decide (s = [])) eqn:E; [done|]. simpl. by rewrite E.
Qed.

Lemma sendEmailSchema_parse_cases `{Collaborators} body w :
  (∃ request, sendEmailSchema_parse body w = (Returned request, w)) ∨
  (∃ errors, sendEmailSchema_parse body w = (Thrown (ZodError errors), w)).
Proof.
  unfold sendEmailSchema_parse.
  repeat case_match; first [by left; eexists | by right; eexists].
Qed.

(** The handler on a request that passes validation. *)
Lemma post_summaries_email_parsed `{Collaborators} body request w :
  sendEmailSchema_parse body w = (Returned request, w) →
  post_summaries_email body w =
  match Map_get (req_summaryId request) (summaries (storage w)) with
  | None =>
      (Returned (mkResponse 404 (MessageBody (lit "Summary not found"))), w)
  | Some summary =>
      let mails := outgoing_mail request summary <$> req_recipients request in
      let outcomes :=
        imap (λ i r, sendMail (length (mail_calls w) + i)
                       (outgoing_mail request summary r))
             (req_recipients request) in
      if forallb (λ fulfilled : bool, fulfilled) outcomes then
        let emailShare :=
          {| EmailShare.id := randomUUID_nth (uuid_draws w);
             EmailShare.summaryId := req_summaryId request;
             EmailShare.recipients := JSON_stringify (req_recipients request);
             EmailShare.subject := req_subject request;
             EmailShare.message := or_null (req_message request);
             EmailShare.sentAt := Date_nth (date_reads w) |} in
        (Returned
           (mkResponse 200
              (EmailSentBody
                 (lit "Summary sent successfully to " ++
                  toString (length (req_recipients request)) ++
                  lit " recipient(s)") emailShare)),
         mkWorld
           (mkStorage (transcripts (storage w)) (summaries (storage w))
              (Map_set (EmailShare.id emailShare) emailShare
                 (emailShares (storage w))))
           (S (uuid_draws w)) (S (date_reads w)) (groq_calls w)
           (mail_calls w ++ mails))
      else
        (Returned (mkResponse 500 (MessageBody (lit "Failed to send email"))),
         mkWorld (storage w) (uuid_draws w) (date_reads w) (groq_calls w)
                 (mail_calls w ++ mails))
  end.
Proof.
  intros Hparse.
  unfold post_summaries_email, try_catch.
  unfold bind at 1. rewrite Hparse.
  unfold bind at 1. unfold getSummary, bind at 1, get_storage, ret at 1.
  destruct (Map_get _ _) as [summary|]; [|reflexivity].
  pose proof (Array_map_sendMail (outgoing_mail request summary)
                (req_recipients request) w) as Hmap.
  unfold outgoing_mail in Hmap |- *. cbv zeta in *.
  unfold bind at 1. rewrite Hmap.
  unfold bind at 1, Promise_all.
  destruct (forallb _ _); [|reflexivity].
  unfold ret at 1. unfold bind at 1. rewrite createEmailShare_run.
  cbv zeta. cbn [InsertEmailShare.message]. rewrite or_null_or_null.
  reflexivity.
Qed.

Lemma forallb_imap_true {A} (f : nat → A → bool) l :
  (∀ i x, l !! i = Some x → f i x = true) →
  forallb (λ b : bool, b) (imap f l) = true.
Proof.
  revert f. induction l as [|x l IH]; intros f Hf; simpl; [done|].
  rewrite (Hf 0%nat x) by done. simpl.
  apply IH. intros i y Hi. by apply (Hf (S i)).
Qed.

(** X8. When a send-email request passes validation, its summary is found
    and the mail service accepts the message of every recipient, the
    handler answers 200 with "Summary sent successfully to N recipient(s)"
    and the share it has just recorded: the share holds the summary
    identifier, the serialized recipients, the subject and the message
    ([null] when missing or empty), is stored under its identifier and is
    listed by [getEmailSharesBySummaryId]; one message per recipient was
    handed to the mail service, in the order of the request. *)
Theorem send_email_success_records_share `{Collaborators}
    body w request summary :
  sendEmailSchema_parse body w = (Returned request, w) →
  Map_get (req_summaryId request) (summaries (storage w)) = Some summary →
  (∀ i r, req_recipients request !! i = Some r →
          sendMail (length (mail_calls w) + i)
                   (outgoing_mail request summary r) = true) →
  ∃ emailShare w',
    post_summaries_email body w =
      (Returned
         (mkResponse 200
            (EmailSentBody
               (lit "Summary sent successfully to " ++
                toString (length (req_recipients request)) ++
                lit " recipient(s)") emailShare)), w') ∧
    EmailShare.summaryId emailShare = req_summaryId request ∧
    EmailShare.recipients emailShare =
      JSON_stringify (req_recipients request) ∧
    EmailShare.subject emailShare = req_subject request ∧
    EmailShare.message emailShare = or_null (req_message request) ∧
    Map_get (EmailShare.id emailShare) (emailShares (storage w'))
      = Some emailShare ∧
    (∃ shares,
       getEmailSharesBySummaryId (req_summaryId request) w'
         = (Returned shares, w') ∧ emailShare ∈ shares) ∧
    mail_calls w' =
      mail_calls w ++
      (outgoing_mail request summary <$> req_recipients request) ∧
    mail_to <$> (outgoing_mail request summary <$> req_recipients request)
      = req_recipients request.
Proof.
  intros Hparse Hget Hsent.
  rewrite (post_summaries_email_parsed _ _ _ Hparse), Hget. cbv zeta.
  rewrite forallb_imap_true by exact Hsent.
  eexists _, _. split; [reflexivity|]. cbn.
  repeat split.
  - apply Map_get_set_eq.
  - eexists. split; [reflexivity|]. cbn.
    apply list_elem_of_filter. split; [done|].
    eapply Map_get_values, Map_get_set_eq.
  - rewrite <- list_fmap_compose. apply list_fmap_id.
Qed.

Lemma send_email_success_records_share_witness :
  ∃ emailShare w',
    @post_summaries_email Demo.env
      (Demo.email_body [JString (lit "a@x.org"); JString (lit "b@y.org")])
      Demo.world1 =
      (Returned
         (mkResponse 200
            (EmailSentBody (lit "Summary sent successfully to 2 recipient(s)")
               emailShare)), w') ∧
    EmailShare.summaryId emailShare = lit "s1" ∧
    Map_get (EmailShare.id emailShare) (emailShares (storage w'))
      = Some emailShare ∧
    mail_to <$> mail_calls w' = [lit "a@x.org"; lit "b@y.org"].
Proof.
  destruct (@send_email_success_records_share Demo.env
              (Demo.email_body
                 [JString (lit "a@x.org"); JString (lit "b@y.org")])
              Demo.world1
              (mkSendEmail (lit "s1") [lit "a@x.org"; lit "b@y.org"]
                 (lit "Notes") None)
              Demo.summary1 eq_refl eq_refl)
    as (emailShare & w' & Hrun & Hid & _ & _ & _ & Hget & _ & Hcalls & _).
  { intros [|[|i]] r [= <-]; reflexivity. }
  exists emailShare, w'. split; [exact Hrun|]. split; [exact Hid|].
  split; [exact Hget|]. by rewrite Hcalls.
Defined.

(** X9. A send-email request that passes validation but names a summary
    that is not in the store is answered 404 "Summary not found"; nothing
    is sent and nothing is written. *)
Theorem send_email_unknown_summary `{Collaborators} body w request :
  sendEmailSchema_parse body w = (Returned request, w) →
  Map_get (req_summaryId request) (summaries (storage w)) = None →
  post_summaries_email body w =
  (Returned (mkResponse 404 (MessageBody (lit "Summary not found"))), w).
Proof.
  intros Hparse Hget.
  by rewrite (post_summaries_email_parsed _ _ _ Hparse), Hget.
Qed.

Lemma send_email_unknown_summary_witness :
  @post_summaries_email Demo.env
    (JObject [(lit "summaryId", JString (lit "gone"));
              (lit "recipients", JArray [JString (lit "a@x.org")]);
              (lit "subject", JString (lit "Notes"))]) Demo.world1 =
  (Returned (mkResponse 404 (MessageBody (lit "Summary not found"))),
   Demo.world1).
Proof.
  apply (@send_email_unknown_summary Demo.env _ Demo.world1
           (mkSendEmail (lit "gone") [lit "a@x.org"] (lit "Notes") None));
    reflexivity.
Defined.

(** X10. The send-email handler answers 400 exactly when the body does not
    pass [sendEmailSchema], and then it has changed nothing. *)
Theorem send_email_rejects_exactly_invalid `{Collaborators} body w :
  ∃ r w',
    post_summaries_email body w = (Returned r, w') ∧
    (status r = 400%nat ↔
     ¬ ∃ fields request,
         body = JObject fields ∧ send_email_valid fields request) ∧
    (status r = 400%nat → w' = w).
Proof.
  destruct (sendEmailSchema_parse_cases body w)
    as [[request Hparse]|[errors Hparse]].
  - pose proof (proj1 (sendEmailSchema_parse_valid _ _ _) Hparse)
      as (fields & -> & Hvalid).
    rewrite (post_summaries_email_parsed _ _ _ Hparse).
    destruct (Map_get _ _) as [summary|]; cbv zeta;
      [destruct (forallb _ _)|];
      (eexists _, _; split; [reflexivity|]; split; [|by intros [=]]);
      (split; [by intros [=] | intros Hn; destruct Hn; by eexists _, _]).
  - assert (post_summaries_email body w =
            (Returned (mkResponse 400
               (InvalidBody (lit "Invalid request data") errors)), w)) as ->.
    { unfold post_summaries_email, try_catch, bind at 1.
      by rewrite Hparse. }
    eexists _, _. split; [reflexivity|]. split; [|done].
    split; [|done]. intros _ (fields & request & -> & Hvalid).
    pose proof (proj2 (sendEmailSchema_parse_valid (JObject fields) w request)
                  (ex_intro _ fields (conj eq_refl Hvalid))) as Hok.
    by rewrite Hok in Hparse.
Qed.

(** X11. Every message the send-email handler hands to the mail service is
    addressed to a recipient of the request that passed the email check,
    and carries the request's subject, which is not empty. *)
Theorem send_email_only_to_validated `{Collaborators} body w o w' :
  post_summaries_email body w = (o, w') →
  ∃ sent,
    mail_calls w' = mail_calls w ++ sent ∧
    Forall (λ m, zod_isEmail (mail_to m) = true ∧ mail_subject m ≠ []) sent.
Proof.
  intros Hrun.
  destruct (sendEmailSchema_parse_cases body w)
    as [[request Hparse]|[errors Hparse]].
  - pose proof (proj1 (sendEmailSchema_parse_valid _ _ _) Hparse)
      as (fields & -> & Hvalid).
    destruct Hvalid as (_ & _ & _ & _ & Hall & _ & Hsubject & _).
    rewrite (post_summaries_email_parsed _ _ _ Hparse) in Hrun.
    assert (∀ summary,
              Forall (λ m, zod_isEmail (mail_to m) = true ∧
                           mail_subject m ≠ [])
                     (outgoing_mail request summary <$>
                      req_recipients request)) as Hmails.
    { intros summary. apply Forall_fmap.
      eapply Forall_impl; [exact Hall|]. by intros r Hr. }
    destruct (Map_get _ _) as [summary|]; cbv zeta in Hrun;
      [destruct (forallb _ _)|]; simplify_eq.
    + eexists. split; [reflexivity|]. apply Hmails.
    + eexists. split; [reflexivity|]. apply Hmails.
    + exists []. by rewrite app_nil_r.
  - unfold post_summaries_email, try_catch, bind at 1 in Hrun.
    rewrite Hparse in Hrun. unfold res_status_json, ret in Hrun.
    simplify_eq. exists []. by rewrite app_nil_r.
Qed.

Lemma send_email_only_to_validated_witness :
  let run :=
    @post_summaries_email Demo.env
      (Demo.email_body
         [JString (lit "a@x.org"); JString (lit "bounce@example.com")])
      Demo.world1 in
  ∃ sent,
    mail_calls run.2 = mail_calls Demo.world1 ++ sent ∧
    Forall (λ m, Demo.contains_at (mail_to m) = true ∧ mail_subject m ≠ [])
           sent.
Proof.
  intros run.
  apply (@send_email_only_to_validated Demo.env
           (Demo.email_body
              [JString (lit "a@x.org"); JString (lit "bounce@example.com")])
           Demo.world1 run.1 run.2).
  apply surjective_pairing.
Defined.

(** ** The runs of the generate-summary handler *)

(** X12. The generate-summary handler answers 400 exactly when the body
    does not pass [generateSummarySchema] (it is not an object, its
    [transcriptContent] is not a string or is empty, or its
    [customInstructions] is present and not a string); it has then stored
    no transcript and made no call to the completion service. *)
Theorem generate_rejects_exactly_invalid `{Collaborators} body w :
  ∃ r w',
    post_summaries_generate body w = (Returned r, w') ∧
    (status r = 400%nat ↔
     ¬ ∃ fields tc ci, body = JObject fields ∧ generate_valid fields tc ci) ∧
    (status r = 400%nat → w' = w).
Proof.
  destruct (post_summaries_generate_cases body)
    as [(fields & tc & ci & -> & Hvalid)|Hinvalid].
  - rewrite (post_summaries_generate_valid fields w tc ci Hvalid). cbv zeta.
    destruct (groq_create _ _);
      (eexists _, _; split; [reflexivity|]; split; [|by intros [=]]);
      (split; [by intros [=] | intros Hn; destruct Hn; by eexists _, _, _]).
  - destruct (Hinvalid _ w) as [errors ->].
    eexists _, _. split; [reflexivity|]. split; [|done].
    split; [|done]. intros _ (fields & tc & ci & -> & Hvalid).
    pose proof (Hinvalid _ w) as [errors' E].
    rewrite (post_summaries_generate_valid fields w tc ci Hvalid) in E.
    cbv zeta in E. by destruct (groq_create _ _).
Qed.

Example generate_refuses_null_instructions :
  ∃ errors,
    @post_summaries_generate Demo.env
      (JObject [(lit "transcriptContent", JString (lit "Bob: hello"));
                (lit "customInstructions", JNull)]) Demo.world0 =
    (Returned
       (mkResponse 400 (InvalidBody (lit "Invalid request data") errors)),
     Demo.world0) ∧
    issue_path <$> errors = [[Key (lit "customInstructions")]].
Proof. eexists. split; reflexivity. Qed.

Example generate_refuses_empty_transcript :
  @post_summaries_generate Demo.env
    (JObject [(lit "transcriptContent", JString [])]) Demo.world0 =
  (Returned
     (mkResponse 400
        (InvalidBody (lit "Invalid request data")
           [mkIssue too_small [Key (lit "transcriptContent")]
              (Some (lit "Transcript content is required"))])),
   Demo.world0).
Proof. reflexivity. Qed.

(** X13. When a valid generate-summary request reaches a completion service
    whose call fails, the handler answers 500 "Failed to generate summary";
    the transcript it created first stays in the store, with the request's
    text as content, and no summary is created. *)
Theorem generate_failure_keeps_transcript `{Collaborators}
    fields w tc ci :
  generate_valid fields tc ci →
  groq_create (length (groq_calls w))
    (completion_request (generate_prompt ci tc)) = None →
  ∃ transcript w',
    post_summaries_generate (JObject fields) w =
      (Returned
         (mkResponse 500 (MessageBody (lit "Failed to generate summary"))),
       w') ∧
    Map_get (Transcript.id transcript) (transcripts (storage w'))
      = Some transcript ∧
    Transcript.content transcript = tc ∧
    Transcript.fileName transcript = None ∧
    summaries (storage w') = summaries (storage w) ∧
    groq_calls w' =
      groq_calls w ++ [completion_request (generate_prompt ci tc)].
Proof.
  intros Hvalid Hdown.
  rewrite (post_summaries_generate_valid fields w tc ci Hvalid). cbv zeta.
  rewrite Hdown. eexists _, _. split; [reflexivity|]. cbn.
  split; [apply Map_get_set_eq|]. by repeat split.
Qed.

Lemma generate_failure_keeps_transcript_witness :
  ∃ transcript w',
    @post_summaries_generate DemoDown.env Demo.generate_body Demo.world0 =
      (Returned
         (mkResponse 500 (MessageBody (lit "Failed to generate summary"))),
       w') ∧
    Map_get (Transcript.id transcript) (transcripts (storage w'))
      = Some transcript ∧
    Transcript.content transcript =
      lit "Alice: let's ship Friday. Bob: agreed." ∧
    summaries (storage w') = [].
Proof.
  destruct (@generate_failure_keeps_transcript DemoDown.env
              [(lit "transcriptContent",
                JString (lit "Alice: let's ship Friday. Bob: agreed."))]
              Demo.world0
              (lit "Alice: let's ship Friday. Bob: agreed.") None)
    as (transcript & w' & Hrun & Hget & Hcontent & _ & Hsum & _).
  { split; [reflexivity|]. split; [discriminate|reflexivity]. }
  { reflexivity. }
  by exists transcript, w'.
Defined.

(** X14. Custom instructions that are not empty are used as they are (not
    trimmed, even when blank): they open the prompt sent to the completion
    service and are what the stored summary records.  Instructions given
    as the empty string count as not given: the default text is used and
    recorded. *)
Theorem generate_uses_custom_instructions `{Collaborators}
    fields w tc s completion :
  generate_valid fields tc (Some s) →
  let instructions := if decide (s = []) then defaultInstructions else s in
  let prompt := instructions ++ [LF; LF] ++ lit "Transcript:" ++ [LF] ++ tc in
  groq_create (length (groq_calls w)) (completion_request prompt)
    = Some completion →
  ∃ summary w',
    post_summaries_generate (JObject fields) w =
      (Returned (mkResponse 200 (SummaryBody summary)), w') ∧
    groq_calls w' = groq_calls w ++ [completion_request prompt] ∧
    Summary.customInstructions summary = Some instructions ∧
    Map_get (Summary.id summary) (summaries (storage w')) = Some summary.
Proof.
  intros Hvalid instructions prompt Hgroq.
  pose proof (post_summaries_generate_valid fields w tc (Some s) Hvalid)
    as Hrun.
  cbv zeta in Hrun.
  assert (or_else (Some s) defaultInstructions = instructions) as Hinstr.
  { unfold or_else, instructions.
    destruct (decide (s = [])) as [->|Hs]; [done|].
    by rewrite bool_decide_eq_false_2. }
  unfold generate_prompt in Hrun. rewrite Hinstr in Hrun.
  fold prompt in Hrun. rewrite Hgroq in Hrun.
  eexists _, _. split; [exact Hrun|]. cbn.
  split; [done|]. split; [done|]. apply Map_get_set_eq.
Qed.

Lemma generate_uses_custom_instructions_witness :
  ∃ summary w',
    @post_summaries_generate Demo.env
      (JObject [(lit "transcriptContent", JString (lit "Bob: hello"));
                (lit "customInstructions", JString (lit "  bullets only "))])
      Demo.world0 =
      (Returned (mkResponse 200 (SummaryBody summary)), w') ∧
    Summary.customInstructions summary = Some (lit "  bullets only ").
Proof.
  destruct (@generate_uses_custom_instructions Demo.env
              [(lit "transcriptContent", JString (lit "Bob: hello"));
               (lit "customInstructions", JString (lit "  bullets only "))]
              Demo.world0 (lit "Bob: hello") (lit "  bullets only ")
              (mkChatCompletion
                 [mkChoice
                    (Some (mkChoiceMessage (Some Demo.completion_text)))]))
    as (summary & w' & Hrun & _ & Hci & _).
  { split; [reflexivity|]. split; [discriminate|reflexivity]. }
  { reflexivity. }
  by exists summary, w'.
Defined.

Example generate_empty_instructions_fall_back :
  ∃ summary w',
    @post_summaries_generate Demo.env
      (JObject [(lit "transcriptContent", JString (lit "Bob: hello"));
                (lit "customInstructions", JString [])]) Demo.world0 =
      (Returned (mkResponse 200 (SummaryBody summary)), w') ∧
    Summary.customInstructions summary = Some defaultInstructions.
Proof. eexists _, _. split; [vm_compute; reflexivity|]. reflexivity. Qed.

(** X15. A successful generate-summary request leaves two records: a
    transcript holding the request's text exactly as sent (not trimmed) with
    no file name, and the summary answered, whose [transcriptId] is the
    identifier of that transcript and whose content is the text of the
    first choice of the completion (empty when there is none).  The
    transcript can be read back under the summary's [transcriptId]. *)
Theorem generate_links_summary_to_transcript `{Collaborators}
    fields w tc ci completion :
  generate_valid fields tc ci →
  groq_create (length (groq_calls w))
    (completion_request (generate_prompt ci tc)) = Some completion →
  ∃ summary transcript w',
    post_summaries_generate (JObject fields) w =
      (Returned (mkResponse 200 (SummaryBody summary)), w') ∧
    getTranscript (Summary.transcriptId summary) w'
      = (Returned (Some transcript), w') ∧
    Transcript.id transcript = Summary.transcriptId summary ∧
    Transcript.content transcript = tc ∧
    Transcript.fileName transcript = None ∧
    getSummary (Summary.id summary) w' = (Returned (Some summary), w') ∧
    Summary.content summary = or_else (first_choice_content completion) [] ∧
    uuid_draws w' = S (S (uuid_draws w)).
Proof.
  intros Hvalid Hgroq.
  rewrite (post_summaries_generate_valid fields w tc ci Hvalid). cbv zeta.
  rewrite Hgroq. eexists _, _, _. split; [reflexivity|].
  unfold getTranscript, getSummary, bind, get_storage, ret. cbn.
  rewrite !Map_get_set_eq. by repeat split.
Qed.

Lemma generate_links_summary_to_transcript_witness :
  ∃ summary transcript w',
    @post_summaries_generate Demo.env Demo.generate_body Demo.world1 =
      (Returned (mkResponse 200 (SummaryBody summary)), w') ∧
    @getTranscript (Summary.transcriptId summary) w'
      = (Returned (Some transcript), w') ∧
    Transcript.content transcript =
      lit "Alice: let's ship Friday. Bob: agreed." ∧
    Summary.content summary = Demo.completion_text.
Proof.
  destruct (@generate_links_summary_to_transcript Demo.env
              [(lit "transcriptContent",
                JString (lit "Alice: let's ship Friday. Bob: agreed."))]
              Demo.world1
              (lit "Alice: let's ship Friday. Bob: agreed.") None
              (mkChatCompletion
                 [mkChoice
                    (Some (mkChoiceMessage (Some Demo.completion_text)))]))
    as (summary & transcript & w' & Hrun & Hget & _ & Hc & _ & _ & Hs & _).
  { split; [reflexivity|]. split; [discriminate|reflexivity]. }
  { reflexivity. }
  by exists summary, transcript, w'.
Defined.

(** ** The update and read routes *)

(** X16. The outcomes of [PATCH /api/summaries/:id].  A body that is
    [undefined] or [null] is answered 500; a [content] that is not a string
    or is empty, 400; an identifier that is not in the store, 404; in these
    three cases nothing changes.  Otherwise the answer is 200 with the
    updated summary, stored under the identifier, whose content is the
    string exactly as sent: it is not trimmed, and a blank string is
    accepted. *)
Theorem patch_outcomes id body w :
  (destructure body (lit "content") = None →
   patch_summaries id body w =
   (Returned (mkResponse 500 (MessageBody (lit "Failed to update summary"))),
    w)) ∧
  (∀ v, destructure body (lit "content") = Some v →
        (¬ ∃ s, v = JString s ∧ s ≠ []) →
        patch_summaries id body w =
        (Returned (mkResponse 400 (MessageBody (lit "Content is required"))),
         w)) ∧
  (∀ s, destructure body (lit "content") = Some (JString s) → s ≠ [] →
        Map_get id (summaries (storage w)) = None →
        patch_summaries id body w =
        (Returned (mkResponse 404 (MessageBody (lit "Summary not found"))),
         w)) ∧
  (∀ s old, destructure body (lit "content") = Some (JString s) → s ≠ [] →
        Map_get id (summaries (storage w)) = Some old →
        ∃ updated w',
          patch_summaries id body w =
            (Returned (mkResponse 200 (SummaryBody updated)), w') ∧
          Summary.content updated = s ∧
          Summary.id updated = Summary.id old ∧
          Map_get id (summaries (storage w')) = Some updated).
Proof.
  unfold patch_summaries, try_catch.
  split; [by unfold bind at 1; intros ->|]. split; [|split].
  - intros v Hd Hv. unfold bind at 1. rewrite Hd. unfold ret at 1.
    destruct v as [| |b|q|s|xs|fs];
      try (cbn [truthy typeof_string negb orb]; by rewrite ?orb_true_r).
    destruct s as [|c s]; [done|]. destruct Hv. by exists (c :: s).
  - intros s Hd Hs Hget. unfold bind at 1. rewrite Hd. unfold ret at 1.
    destruct s as [|c s]; [done|].
    change (negb (truthy (JString (c :: s))) ||
            negb (typeof_string (JString (c :: s)))) with false.
    cbv iota. unfold bind at 1.
    by rewrite (updateSummary_missing _ _ _ Hget).
  - intros s old Hd Hs Hget. unfold bind at 1. rewrite Hd. unfold ret at 1.
    destruct s as [|c s]; [done|].
    change (negb (truthy (JString (c :: s))) ||
            negb (typeof_string (JString (c :: s)))) with false.
    cbv iota. unfold bind at 1.
    rewrite (updateSummary_found _ _ _ _ Hget). cbv zeta.
    eexists _, _. split; [reflexivity|]. cbn.
    split; [done|]. split; [done|]. apply Map_get_set_eq.
Qed.

Example patch_blank_content_is_stored :
  ∃ updated w',
    patch_summaries (lit "s1")
      (JObject [(lit "content", JString (lit "   "))]) Demo.world1 =
      (Returned (mkResponse 200 (SummaryBody updated)), w') ∧
    Summary.content updated = lit "   " ∧
    Summary.wordCount updated = Some (lit "1").
Proof. eexists _, _. split; [vm_compute; reflexivity|]. by split. Qed.

Example patch_empty_content_is_refused :
  patch_summaries (lit "s1") (JObject [(lit "content", JString [])])
    Demo.world1 =
  (Returned (mkResponse 400 (MessageBody (lit "Content is required"))),
   Demo.world1).
Proof. reflexivity. Qed.

(** X17. Reading a summary right after a successful update returns the
    record the update answered, and reading changes nothing. *)
Theorem patch_then_get_returns_update id body w updated w' :
  patch_summaries id body w =
    (Returned (mkResponse 200 (SummaryBody updated)), w') →
  get_summaries id w' =
    (Returned (mkResponse 200 (SummaryBody updated)), w').
Proof.
  intros Hrun.
  destruct (patch_summaries_summary _ _ _ _ _ _ Hrun eq_refl)
    as (content & old & _ & Hget & Hupd).
  rewrite (updateSummary_found _ _ _ _ Hget) in Hupd. cbv zeta in Hupd.
  injection Hupd as <- <-.
  unfold get_summaries, try_catch, getSummary, bind, get_storage, ret.
  cbn. by rewrite Map_get_set_eq.
Qed.

Lemma patch_then_get_returns_update_witness :
  let run :=
    patch_summaries (lit "s2")
      (JObject [(lit "content", JString (lit "new text"))]) Demo.world1 in
  ∃ updated,
    run.1 = Returned (mkResponse 200 (SummaryBody updated)) ∧
    Summary.content updated = lit "new text" ∧
    get_summaries (lit "s2") run.2 =
      (Returned (mkResponse 200 (SummaryBody updated)), run.2).
Proof.
  intros run. eexists. split; [reflexivity|]. split; [reflexivity|].
  apply (patch_then_get_returns_update (lit "s2")
           (JObject [(lit "content", JString (lit "new text"))])
           Demo.world1).
  reflexivity.
Defined.

(** X18. Two updates of the same identifier in a row leave the store and
    return the value that the second alone would: the last write wins and
    no trace of the first remains. *)
Theorem updateSummary_last_write_wins id content1 content2 w :
  (updateSummary id content1 ;;; updateSummary id content2) w =
  updateSummary id content2 w.
Proof.
  unfold bind.
  destruct (Map_get id (summaries (storage w))) as [summary|] eqn:Hget.
  - rewrite (updateSummary_found _ _ _ _ Hget). cbv zeta.
    erewrite updateSummary_found by (cbn; apply Map_get_set_eq).
    rewrite (updateSummary_found _ content2 _ _ Hget). cbn.
    by rewrite Map_set_set.
  - rewrite (updateSummary_missing _ _ _ Hget).
    by rewrite !(updateSummary_missing _ _ _ Hget).
Qed.

Lemma Map_values_set_same {V B} (g : V → B) k (v old : V) m :
  Map_get k m = Some old → g v = g old →
  g <$> Map_values (Map_set k v m) = g <$> Map_values m.
Proof.
  unfold Map_values. intros Hget Hg.
  induction m as [|[k' v'] m IH]; simpl in *; [done|].
  destruct (decide (k' = k)) as [->|Hne]; simpl.
  - injection Hget as ->. by rewrite Hg.
  - f_equal. by apply IH.
Qed.

Lemma filter_ids_same transcriptId (l1 l2 : list Summary.t) :
  (λ s, (Summary.id s, Summary.transcriptId s)) <$> l1 =
  (λ s, (Summary.id s, Summary.transcriptId s)) <$> l2 →
  Summary.id <$> filter (λ s, Summary.transcriptId s = transcriptId) l1 =
  Summary.id <$> filter (λ s, Summary.transcriptId s = transcriptId) l2.
Proof.
  revert l2. induction l1 as [|x l1 IH]; intros [|y l2] E; simplify_eq/=;
    [done|].
  rewrite !filter_cons. rewrite H1.
  destruct (decide (Summary.transcriptId y = transcriptId)); simpl;
    [f_equal; [done|]|]; by apply IH.
Qed.

(** X19. An update never changes which summaries a transcript lists, nor
    their order: for every transcript, [getSummariesByTranscriptId] gives
    the same identifiers in the same positions before and after
    [updateSummary], whether the identifier updated exists or not. *)
Theorem updateSummary_keeps_listing id content transcriptId w :
  ∃ o w' before after,
    updateSummary id content w = (o, w') ∧
    getSummariesByTranscriptId transcriptId w = (Returned before, w) ∧
    getSummariesByTranscriptId transcriptId w' = (Returned after, w') ∧
    Summary.id <$> after = Summary.id <$> before.
Proof.
  destruct (Map_get id (summaries (storage w))) as [summary|] eqn:Hget.
  - rewrite (updateSummary_found _ _ _ _ Hget). cbv zeta.
    eexists _, _, _, _. split; [reflexivity|].
    split; [reflexivity|]. split; [reflexivity|]. cbn.
    apply filter_ids_same.
    by apply (Map_values_set_same _ _ _ summary).
  - rewrite (updateSummary_missing _ _ _ Hget).
    eexists _, _, _, _. split; [reflexivity|].
    split; [reflexivity|]. by split.
Qed.

(** ** The upload route *)

(** X20. The upload handler answers 400 "No file uploaded" and changes
    nothing when the request carries no file.  Otherwise it stores and
    answers (200) a transcript whose content is the file's bytes decoded
    as UTF-8 text, whatever the declared content type, and as they are:
    the text is not trimmed and may be empty.  The file name is the
    original name, or [null] when that name is empty. *)
Theorem upload_stores_decoded_bytes `{Collaborators} decode w :
  post_transcripts_upload decode None w =
    (Returned (mkResponse 400 (MessageBody (lit "No file uploaded"))), w) ∧
  (∀ file, ∃ transcript w',
     post_transcripts_upload decode (Some file) w =
       (Returned (mkResponse 200 (TranscriptBody transcript)), w') ∧
     Transcript.content transcript = decode (buffer file) ∧
     Transcript.fileName transcript =
       (if decide (originalname file = []) then None
        else Some (originalname file)) ∧
     getTranscript (Transcript.id transcript) w'
       = (Returned (Some transcript), w')).
Proof.
  split; [reflexivity|]. intros file.
  unfold post_transcripts_upload, try_catch, bind at 1.
  rewrite createTranscript_run. cbv zeta.
  eexists _, _. split; [reflexivity|]. cbn.
  split; [by destruct (bool_decide _)|]. split.
  - destruct (decide (originalname file = [])) as [->|Hne]; [done|].
    by rewrite bool_decide_eq_false_2.
  - unfold getTranscript, bind, get_storage, ret. cbn.
    by rewrite Map_get_set_eq.
Qed.

Example upload_docx_is_read_as_text :
  ∃ transcript w',
    @post_transcripts_upload Demo.env DemoDown.ascii_decode
      (Some DemoDown.notes_file) Demo.world0 =
      (Returned (mkResponse 200 (TranscriptBody transcript)), w') ∧
    Transcript.content transcript = lit "  raw notes " ∧
    Transcript.fileName transcript = Some (lit "notes.docx").
Proof. eexists _, _. split; [vm_compute; reflexivity|]. by split. Qed.

Example upload_empty_file_is_stored :
  ∃ transcript w',
    @post_transcripts_upload Demo.env DemoDown.ascii_decode
      (Some (mkFile (lit "text/plain") [] [])) Demo.world0 =
      (Returned (mkResponse 200 (TranscriptBody transcript)), w') ∧
    Transcript.content transcript = [] ∧
    Transcript.fileName transcript = None ∧
    length (transcripts (storage w')) = 1%nat.
Proof. eexists _, _. split; [vm_compute; reflexivity|]. by repeat split. Qed.

(** ** The text of the mails *)

Lemma trimStart_app_blank a b :
  forallb isWhiteSpace a = true → trimStart (a ++ b) = trimStart b.
Proof.
  induction a as [|c a IH]; simpl; [done|].
  intros [Hc Ha]%andb_prop. rewrite Hc. auto.
Qed.

Lemma trimStart_app_nonblank a b :
  forallb isWhiteSpace a = false → trimStart (a ++ b) = trimStart a ++ b.
Proof.
  induction a as [|c a IH]; simpl; [done|].
  destruct (isWhiteSpace c); simpl; [exact IH | done].
Qed.

Lemma trimEnd_app_blank a b :
  forallb isWhiteSpace b = true → trimEnd (a ++ b) = trimEnd a.
Proof.
  intros Hb. induction a as [|c a IH]; simpl.
  - induction b as [|d b IHb]; simpl; [done|].
    apply andb_prop in Hb as [Hd Hb]. by rewrite (IHb Hb), Hd.
  - by rewrite IH.
Qed.

Lemma trimEnd_app_nonblank a b :
  trimEnd b ≠ [] → trimEnd (a ++ b) = a ++ trimEnd b.
Proof.
  intros Hb. induction a as [|c a IH]; simpl; [done|].
  rewrite IH. destruct (a ++ trimEnd b) eqn:E; [|done].
  by apply app_eq_nil in E as [_ ?].
Qed.

Lemma trimEnd_email_tail content :
  trimEnd (email_tail content) = email_tail content.
Proof.
  unfold email_tail. rewrite !app_assoc.
  rewrite trimEnd_app_nonblank by (vm_compute; discriminate).
  reflexivity.
Qed.

Lemma email_tail_nonempty content : email_tail content ≠ [].
Proof. unfold email_tail. discriminate. Qed.

Lemma trim_email_tail lead content :
  trimEnd (lead ++ email_tail content ++ [LF] ++ lit "      ") =
  lead ++ email_tail content.
Proof.
  rewrite (app_assoc lead (email_tail content)).
  rewrite trimEnd_app_blank by reflexivity.
  rewrite trimEnd_app_nonblank; rewrite trimEnd_email_tail;
    [done | apply email_tail_nonempty].
Qed.

(** X21. The text of the mail, in closed form.  It always ends with the
    summary content, verbatim, between two "---" lines, followed by a
    blank line and the disclaimer.  With no message, or a message that is
    empty or blank, there is nothing before; otherwise the message comes
    first, without its leading white space, followed by two blank
    lines. *)
Theorem email_text_layout message content :
  trim (emailBody_template message content) =
  match message with
  | Some m =>
      if forallb isWhiteSpace m then []
      else trimStart m ++ [LF; LF; LF]
  | None => []
  end ++ email_tail content.
Proof.
  set (rest := email_tail content ++ [LF] ++ lit "      ").
  assert (trimStart rest = rest) as Hstart by reflexivity.
  assert (∀ lead, trimEnd (lead ++ rest) = lead ++ email_tail content)
    as Hend by (intros lead; apply trim_email_tail).
  assert (∀ part,
            [LF] ++ part ++ [LF] ++ lit "---" ++ [LF] ++ content ++ [LF] ++
            lit "---" ++ [LF] ++ [LF] ++
            lit "This summary was generated using AI and may require review."
            ++ [LF] ++ lit "      " =
            ([LF] ++ part ++ [LF]) ++ rest) as Hshape.
  { intros part. unfold rest, email_tail. by rewrite <- !app_assoc. }
  unfold trim, emailBody_template.
  destruct message as [m|]; [destruct (bool_decide (m = [])) eqn:Hm|].
  - apply bool_decide_eq_true in Hm as ->. rewrite (Hshape []).
    rewrite trimStart_app_blank by reflexivity.
    rewrite Hstart. apply (Hend []).
  - rewrite (Hshape (m ++ [LF; LF])).
    destruct (forallb isWhiteSpace m) eqn:Hblank.
    + rewrite trimStart_app_blank.
      * rewrite Hstart. apply (Hend []).
      * rewrite !forallb_app, Hblank. reflexivity.
    + replace (([LF] ++ (m ++ [LF; LF]) ++ [LF]) ++ rest)
        with ([LF] ++ (m ++ ([LF; LF; LF] ++ rest)))
        by (by rewrite <- !app_assoc).
      rewrite (trimStart_app_blank [LF]) by reflexivity.
      rewrite trimStart_app_nonblank by exact Hblank.
      rewrite (app_assoc (trimStart m)). apply Hend.
  - rewrite (Hshape []).
    rewrite trimStart_app_blank by reflexivity.
    rewrite Hstart. apply (Hend []).
Qed.

Example email_text_without_message :
  trim (emailBody_template None (lit "Decisions: ship.")) =
  lit "---" ++ [LF] ++ lit "Decisions: ship." ++ [LF] ++ lit "---" ++
  [LF; LF] ++
  lit "This summary was generated using AI and may require review.".
Proof. reflexivity. Qed.

Example email_text_with_message :
  trim (emailBody_template (Some (lit " Hi all,")) (lit "Decisions: ship.")) =
  lit "Hi all," ++ [LF; LF; LF] ++ email_tail (lit "Decisions: ship.").
Proof. reflexivity. Qed.

(** X22. The HTML body is the text with every line feed replaced by
    [<br>]: it contains no line feed, a text without line feed is left as
    it is, and the replacement works piece by piece. *)
Theorem email_html_replaces_line_feeds :
  (∀ s, LF ∉ replace_newlines s) ∧
  (∀ s, LF ∉ s → replace_newlines s = s) ∧
  (∀ a b, replace_newlines (a ++ [LF] ++ b) =
          replace_newlines a ++ lit "<br>" ++ replace_newlines b).
Proof.
  unfold replace_newlines. split; [|split].
  - intros s (c & Hin & _)%list_elem_of_bind.
    destruct (c =? LF) eqn:Hc.
    + change (lit "<br>") with [0x3C; 0x62; 0x72; 0x3E] in Hin.
      rewrite !elem_of_cons, elem_of_nil in Hin.
      by destruct Hin as [|[|[|[|]]]].
    + apply list_elem_of_singleton in Hin as <-.
      by rewrite N.eqb_refl in Hc.
  - induction s as [|c s IH]; intros Hs; [done|].
    apply not_elem_of_cons in Hs as [Hc Hs].
    rewrite bind_cons, IH by done.
    destruct (c =? LF) eqn:E; [|done].
    by apply N.eqb_eq in E as ->.
  - intros a b. by rewrite !bind_app.
Qed.

(** ** Creating and reading back *)

(** X23. What a create operation returns is what the store then holds.  The
    record is read back under its new identifier ([getTranscript],
    [getSummary]) and is listed for the record it refers to
    ([getSummariesByTranscriptId], [getEmailSharesBySummaryId]); reading
    under any other identifier gives what it gave before.  The required
    fields are stored as given; an optional field given as the empty string
    is stored as [null], like one that is missing. *)
Theorem create_then_read `{Collaborators} w :
  (∀ ins, ∃ t w',
     createTranscript ins w = (Returned t, w') ∧
     getTranscript (Transcript.id t) w' = (Returned (Some t), w') ∧
     Transcript.content t = InsertTranscript.content ins ∧
     Transcript.fileName t = or_null (InsertTranscript.fileName ins) ∧
     (∀ k, k ≠ Transcript.id t →
           (getTranscript k w').1 = (getTranscript k w).1)) ∧
  (∀ ins, ∃ s w',
     createSummary ins w = (Returned s, w') ∧
     getSummary (Summary.id s) w' = (Returned (Some s), w') ∧
     (∃ listed,
        getSummariesByTranscriptId (InsertSummary.transcriptId ins) w'
          = (Returned listed, w') ∧ s ∈ listed) ∧
     Summary.content s = InsertSummary.content ins ∧
     Summary.customInstructions s =
       or_null (InsertSummary.customInstructions ins) ∧
     Summary.wordCount s = or_null (InsertSummary.wordCount ins) ∧
     (∀ k, k ≠ Summary.id s → (getSummary k w').1 = (getSummary k w).1)) ∧
  (∀ ins, ∃ e w',
     createEmailShare ins w = (Returned e, w') ∧
     (∃ listed,
        getEmailSharesBySummaryId (InsertEmailShare.summaryId ins) w'
          = (Returned listed, w') ∧ e ∈ listed) ∧
     EmailShare.recipients e = InsertEmailShare.recipients ins ∧
     EmailShare.subject e = InsertEmailShare.subject ins ∧
     EmailShare.message e = or_null (InsertEmailShare.message ins)) ∧
  or_null (Some []) = None.
Proof.
  split; [|split; [|split; [|reflexivity]]]; intros ins.
  - rewrite createTranscript_run. cbv zeta. eexists _, _.
    split; [reflexivity|].
    unfold getTranscript, bind, get_storage, ret. cbn.
    rewrite Map_get_set_eq. repeat split.
    intros k Hk. by rewrite Map_get_set_ne.
  - rewrite createSummary_run. cbv zeta. eexists _, _.
    split; [reflexivity|].
    unfold getSummary, getSummariesByTranscriptId, bind, get_storage, ret.
    cbn. rewrite Map_get_set_eq. repeat split.
    + eexists. split; [reflexivity|].
      apply list_elem_of_filter. split; [done|].
      eapply Map_get_values, Map_get_set_eq.
    + intros k Hk. by rewrite Map_get_set_ne.
  - rewrite createEmailShare_run. cbv zeta. eexists _, _.
    split; [reflexivity|].
    unfold getEmailSharesBySummaryId, bind, get_storage, ret. cbn.
    repeat split. eexists. split; [reflexivity|].
    apply list_elem_of_filter. split; [done|].
    eapply Map_get_values, Map_get_set_eq.
Qed.

Example createSummary_takes_supplied_wordCount :
  ∃ s w',
    @createSummary Demo.env
      {| InsertSummary.transcriptId := lit "t1";
         InsertSummary.content := lit "one two";
         InsertSummary.customInstructions := Some [];
         InsertSummary.wordCount := Some (lit "40") |} Demo.world1 =
      (Returned s, w') ∧
    Summary.wordCount s = Some (lit "40") ∧
    Summary.customInstructions s = None ∧
    Map_keys (summaries (storage w')) =
      [lit "s1"; lit "s2"; lit "s3"; lit "id-7"].
Proof. eexists _, _. split; [vm_compute; reflexivity|]. by repeat split. Qed.

(** A short session: a generated summary, edited, then mailed. *)
Example served_session :
  let w :=
    @serve Demo.env DemoDown.ascii_decode
      [PostSummariesGenerate Demo.generate_body;
       PatchSummaries (lit "id-1")
         (JObject [(lit "content", JString (lit "Ship Friday."))]);
       PostSummariesEmail
         (JObject [(lit "summaryId", JString (lit "id-1"));
                   (lit "recipients", JArray [JString (lit "a@x.org")]);
                   (lit "subject", JString (lit "Notes"))])]
      World_new in
  Map_keys (transcripts (storage w)) = [lit "id-0"] ∧
  Map_keys (summaries (storage w)) = [lit "id-1"] ∧
  Map_keys (emailShares (storage w)) = [lit "id-2"] ∧
  mail_text <$> mail_calls w = [email_tail (lit "Ship Friday.")] ∧
  Summary.wordCount <$> Map_values (summaries (storage w))
    = [Some (lit "2")].
Proof. vm_compute. by repeat split. Qed.
